(** * Inspectable.h: an identity value modified by prioritised transformations

    A shallow embedding of the single-header module [Inspectable.h]:
    [InspectableTransformation<T>], [Inspectable<T>] and the scoped
    value-changed / identity-changed wrappers.

    Objects live at addresses.  The header stores raw pointers to
    transformations and to [std::function] listener objects, so the world is a
    store of transformation objects, a store of listener objects and a store
    of inspectables, each indexed by address, together with the trace of the
    listener invocations made so far.  Every member function is a computation
    in a state-and-exception monad over that world. *)

From Stdlib Require Import ZArith List Bool Arith Lia Permutation Sorted.
From Stdlib Require Import Floats.PrimFloat.
Import ListNotations.

Set Implicit Arguments.

(** ** Addresses, exceptions and results *)

Definition ptr := nat.
Definition nullptr : ptr := 0.

(** [p == nullptr] *)
Definition is_null (p : ptr) : bool := Nat.eqb p nullptr.

(** What a call can raise: [std::bad_function_call], raised by the call
    operator of an empty [std::function], or an exception of the host's own
    function, identified by a code. *)
Inductive exn : Type :=
| bad_function_call
| host_error (code : nat).

Inductive result (A : Type) : Type :=
| Normal (a : A)
| Raised (e : exn).
Arguments Normal {A} a.
Arguments Raised {A} e.

(** An address-indexed store and its update. *)
Definition upd {X : Type} (h : ptr -> X) (p : ptr) (x : X) : ptr -> X :=
  fun q => if Nat.eqb q p then x else h q.

(** ** The containers: [xoins_list] is [std::vector] *)

(** [std::find(l.begin(), l.end(), p)] as the index of the first element equal
    to [p]; the index [length l] stands for [l.end()]. *)
Fixpoint std_find (l : list ptr) (p : ptr) : nat :=
  match l with
  | [] => 0
  | x :: r => if Nat.eqb x p then 0 else S (std_find r p)
  end.

(** [l.erase(it)] for an iterator at index [i]. *)
Fixpoint erase (l : list ptr) (i : nat) : list ptr :=
  match l, i with
  | [], _ => []
  | _ :: r, 0 => r
  | x :: r, S j => x :: erase r j
  end.

(** [l.push_back(p)] *)
Definition push_back (l : list ptr) (p : ptr) : list ptr := l ++ [p].

(** ** [std::sort]

    The header calls [std::sort], whose code is the standard library's.  What
    the C++ standard promises of it, for a comparator that is a strict weak
    ordering, is a permutation of the input in which no element is ordered
    before an element on its left.  Nothing is promised about the relative
    order of equivalent elements. *)

Record StrictWeakOrder {A : Type} (comp : A -> A -> bool) : Prop := {
  swo_irrefl : forall a, comp a a = false;
  swo_trans : forall a b c, comp a b = true -> comp b c = true -> comp a c = true;
  swo_negtrans : forall a b c, comp a b = false -> comp b c = false -> comp a c = false
}.

Class StdSort : Type := {
  std_sort : (ptr -> ptr -> bool) -> list ptr -> list ptr;
  std_sort_perm : forall comp l, Permutation l (std_sort comp l);
  std_sort_sorted : forall comp l, StrictWeakOrder comp ->
    StronglySorted (fun a b => comp b a = false) (std_sort comp l)
}.

(** Two sorts that meet the contract.  Insertion that places an element in
    front of the first one it is not ordered after keeps equivalent elements
    in their input order; the same on the reversed input reverses them. *)
Fixpoint insert_sorted (comp : ptr -> ptr -> bool) (x : ptr) (l : list ptr) : list ptr :=
  match l with
  | [] => [x]
  | y :: r => if comp y x then y :: insert_sorted comp x r else x :: y :: r
  end.

Definition insertion_sort (comp : ptr -> ptr -> bool) (l : list ptr) : list ptr :=
  fold_right (insert_sorted comp) [] l.

Definition reversing_sort (comp : ptr -> ptr -> bool) (l : list ptr) : list ptr :=
  insertion_sort comp (rev l).

Section Inspectable.

(** The value type [T] and its [operator!=]; the standard library's sort. *)
Variable T : Type.
Variable T_ne : T -> T -> bool.
Context {sorter : StdSort}.

(** ** InspectableTransformation<T> *)

(** A call of a [void(T&)] target either returns, having left [v] in the
    referenced object, or raises, having left [v] there. *)
Inductive outcome : Type :=
| Returns (v : T)
| Throws (e : exn) (v : T).

(** [std::function<void(T&)>]: empty, or holding a target. *)
Definition TTransformFunc : Type := option (T -> outcome).

(** [explicit operator bool] of [std::function]. *)
Definition has_target {F : Type} (f : option F) : bool :=
  match f with Some _ => true | None => false end.

Record InspectableTransformation : Type := {
  m_Priority : Z;
  m_Enabled : bool;
  m_Function : TTransformFunc
}.

Definition Transformation_Set (func : TTransformFunc) (priority : Z) (enabled : bool)
    (t : InspectableTransformation) : InspectableTransformation :=
  {| m_Priority := priority; m_Enabled := enabled; m_Function := func |}.

Definition Enable (t : InspectableTransformation) : InspectableTransformation :=
  {| m_Priority := m_Priority t; m_Enabled := true; m_Function := m_Function t |}.

Definition Disable (t : InspectableTransformation) : InspectableTransformation :=
  {| m_Priority := m_Priority t; m_Enabled := false; m_Function := m_Function t |}.

Definition IsEnabled (t : InspectableTransformation) : bool := m_Enabled t.
Definition GetPriority (t : InspectableTransformation) : Z := m_Priority t.
Definition GetTransformFunc (t : InspectableTransformation) : TTransformFunc := m_Function t.

(** [operator()(T& input)]: [m_Function(input)], with no test of the target.
    Calling an empty [std::function] raises [std::bad_function_call]. *)
Definition call_operator (t : InspectableTransformation) (input : T) : outcome :=
  match m_Function t with
  | Some target => target input
  | None => Throws bad_function_call input
  end.

(** ** Inspectable<T> and the world *)

(** A listener target [void(Inspectable<T>*, const T&, const T&)]: it returns
    ([None]) or raises.  What it does to the host is not the header's
    business; the world records that it was called, and with what. *)
Definition TValueChangedFunc : Type := option (ptr -> T -> T -> option exn).

Record Inspectable : Type := {
  m_Identity : T;
  m_LastValue : T;
  m_Transformations : list ptr;
  m_IdentityChanged : list ptr;
  m_ValueChanged : list ptr
}.

(** One listener invocation [( *func)(cell, lastValue, newValue)]. *)
Record Call : Type := {
  callee : ptr;
  subject : ptr;
  lastValue : T;
  newValue : T
}.

Record World : Type := {
  transformations : ptr -> InspectableTransformation;
  functions : ptr -> TValueChangedFunc;
  inspectables : ptr -> Inspectable;
  calls : list Call
}.

(** [Inspectable(T identity) : m_Identity(identity), m_LastValue(identity)] *)
Definition Inspectable_new (identity : T) : Inspectable :=
  {| m_Identity := identity; m_LastValue := identity;
     m_Transformations := []; m_IdentityChanged := []; m_ValueChanged := [] |}.

(** Field assignments on the inspectable at [this]. *)
Definition put (this : ptr) (i : Inspectable) (w : World) : World :=
  {| transformations := transformations w; functions := functions w;
     inspectables := upd (inspectables w) this i; calls := calls w |}.

Definition with_Identity (v : T) (i : Inspectable) : Inspectable :=
  {| m_Identity := v; m_LastValue := m_LastValue i;
     m_Transformations := m_Transformations i;
     m_IdentityChanged := m_IdentityChanged i; m_ValueChanged := m_ValueChanged i |}.

Definition with_LastValue (v : T) (i : Inspectable) : Inspectable :=
  {| m_Identity := m_Identity i; m_LastValue := v;
     m_Transformations := m_Transformations i;
     m_IdentityChanged := m_IdentityChanged i; m_ValueChanged := m_ValueChanged i |}.

Definition with_Transformations (l : list ptr) (i : Inspectable) : Inspectable :=
  {| m_Identity := m_Identity i; m_LastValue := m_LastValue i;
     m_Transformations := l;
     m_IdentityChanged := m_IdentityChanged i; m_ValueChanged := m_ValueChanged i |}.

Definition with_IdentityChanged (l : list ptr) (i : Inspectable) : Inspectable :=
  {| m_Identity := m_Identity i; m_LastValue := m_LastValue i;
     m_Transformations := m_Transformations i;
     m_IdentityChanged := l; m_ValueChanged := m_ValueChanged i |}.

Definition with_ValueChanged (l : list ptr) (i : Inspectable) : Inspectable :=
  {| m_Identity := m_Identity i; m_LastValue := m_LastValue i;
     m_Transformations := m_Transformations i;
     m_IdentityChanged := m_IdentityChanged i; m_ValueChanged := l |}.

Definition put_transformation (p : ptr) (t : InspectableTransformation) (w : World) : World :=
  {| transformations := upd (transformations w) p t; functions := functions w;
     inspectables := inspectables w; calls := calls w |}.

Definition put_function (p : ptr) (f : TValueChangedFunc) (w : World) : World :=
  {| transformations := transformations w; functions := upd (functions w) p f;
     inspectables := inspectables w; calls := calls w |}.

Definition record_calls (cs : list Call) (w : World) : World :=
  {| transformations := transformations w; functions := functions w;
     inspectables := inspectables w; calls := calls w ++ cs |}.

(** ** The monad of member functions: state that survives an exception *)

Definition M (A : Type) : Type := World -> result A * World.

Definition ret {A : Type} (a : A) : M A := fun w => (Normal a, w).

Definition bind {A B : Type} (m : M A) (k : A -> M B) : M B :=
  fun w => match m w with
           | (Normal a, w') => k a w'
           | (Raised e, w') => (Raised e, w')
           end.

Definition self (this : ptr) : M Inspectable := fun w => (Normal (inspectables w this), w).

Definition assign (this : ptr) (f : Inspectable -> Inspectable) : M unit :=
  fun w => (Normal tt, put this (f (inspectables w this)) w).

Definition when (b : bool) (m : M unit) : M unit := if b then m else ret tt.

Notation "x <- m ;; k" := (bind m (fun x => k))
  (at level 61, m at next level, right associativity).
Notation "m ;;; k" := (bind m (fun _ => k))
  (at level 61, right associativity).

(** *** Transformations *)

(** [xoins::internal::TransformationPredicate]:
    [a->GetPriority() > b->GetPriority()]. *)
Definition TransformationPredicate (w : World) (a b : ptr) : bool :=
  Z.gtb (GetPriority (transformations w a)) (GetPriority (transformations w b)).

Definition SortTransformations (this : ptr) : M unit :=
  fun w =>
    assign this (fun i => with_Transformations
      (std_sort (TransformationPredicate w) (m_Transformations i)) i) w.

(** The walk of [ForceUpdate] over [m_Transformations].  A transformation is
    called when it is enabled and its function has a target; an exception
    leaves the walk. *)
Fixpoint apply_transformations (w : World) (ts : list ptr) (value : T) : result T :=
  match ts with
  | [] => Normal value
  | transform :: rest =>
      let t := transformations w transform in
      if IsEnabled t && has_target (GetTransformFunc t) then
        match call_operator t value with
        | Returns value' => apply_transformations w rest value'
        | Throws e _ => Raised e
        end
      else apply_transformations w rest value
  end.

(** [( *func)(this, last, value)]: the call is recorded; an empty function
    raises before anything is called. *)
Definition invoke (func this : ptr) (last value : T) : M unit :=
  fun w =>
    match functions w func with
    | None => (Raised bad_function_call, w)
    | Some target =>
        let w' := record_calls
          [{| callee := func; subject := this; lastValue := last; newValue := value |}] w in
        match target this last value with
        | None => (Normal tt, w')
        | Some e => (Raised e, w')
        end
    end.

(** [for(auto func : fs) ( *func)(this, last, value);] *)
Fixpoint notify (fs : list ptr) (this : ptr) (last value : T) : M unit :=
  match fs with
  | [] => ret tt
  | func :: rest => invoke func this last value ;;; notify rest this last value
  end.

Definition ForceUpdate (this : ptr) : M unit :=
  i <- self this ;;
  let value := m_Identity i in
  let lastValue := m_LastValue i in
  fun w =>
    match apply_transformations w (m_Transformations i) value with
    | Raised e => (Raised e, w)
    | Normal value =>
        (assign this (with_LastValue value) ;;;
         when (T_ne lastValue value)
              (i' <- self this ;; notify (m_ValueChanged i') this lastValue value)) w
    end.

(** [AddTransformation(TTransform* transformation, bool andUpdate)];
    the result is [*this]. *)
Definition AddTransformation (this transformation : ptr) (andUpdate : bool) : M ptr :=
  if is_null transformation then ret this
  else
    assign this (fun i => with_Transformations
      (push_back (m_Transformations i) transformation) i) ;;;
    SortTransformations this ;;;
    when andUpdate (ForceUpdate this) ;;;
    ret this.

(** [AddTransformation(TTransform& outTransformation, func, priority, enabled,
    andUpdate)]: sets the transformation at the address given, then adds it. *)
Definition AddTransformation_set (this outTransformation : ptr) (func : TTransformFunc)
    (priority : Z) (enabled andUpdate : bool) : M ptr :=
  (fun w => (Normal tt,
     put_transformation outTransformation
       (Transformation_Set func priority enabled (transformations w outTransformation)) w)) ;;;
  AddTransformation this outTransformation andUpdate.

Definition AddTransformationUnique (this transformation : ptr) (andUpdate : bool) : M ptr :=
  if is_null transformation then ret this
  else
    i <- self this ;;
    let found := std_find (m_Transformations i) transformation in
    if Nat.eqb found (length (m_Transformations i)) then
      assign this (fun i => with_Transformations
        (push_back (m_Transformations i) transformation) i) ;;;
      SortTransformations this ;;;
      when andUpdate (ForceUpdate this) ;;;
      ret this
    else ret this.

Definition RemoveTransformation (this transformation : ptr) (andUpdate : bool) : M unit :=
  if is_null transformation then ret tt
  else
    i <- self this ;;
    let found := std_find (m_Transformations i) transformation in
    if negb (Nat.eqb found (length (m_Transformations i))) then
      assign this (fun i => with_Transformations (erase (m_Transformations i) found) i) ;;;
      when andUpdate (ForceUpdate this)
    else ret tt.

Definition ContainsTransformation (this transformation : ptr) : M bool :=
  if is_null transformation then ret false
  else
    i <- self this ;;
    let found := std_find (m_Transformations i) transformation in
    ret (negb (Nat.eqb found (length (m_Transformations i)))).

(** *** Listeners *)

(** [f && *f]: the pointer is not null and the function it points to has a
    target. *)
Definition nonnull_with_target (f : ptr) : M bool :=
  fun w => (Normal (negb (is_null f) && has_target (functions w f)), w).

Definition AddOnIdentityChanged (this f : ptr) : M ptr :=
  ok <- nonnull_with_target f ;;
  when ok (assign this (fun i => with_IdentityChanged (push_back (m_IdentityChanged i) f) i)) ;;;
  ret this.

Definition AddOnIdentityChangedUnique (this f : ptr) : M ptr :=
  ok <- nonnull_with_target f ;;
  when ok
    (i <- self this ;;
     let found := std_find (m_IdentityChanged i) f in
     when (Nat.eqb found (length (m_IdentityChanged i)))
       (assign this (fun i => with_IdentityChanged (push_back (m_IdentityChanged i) f) i))) ;;;
  ret this.

Definition RemoveOnIdentityChanged (this f : ptr) : M unit :=
  ok <- nonnull_with_target f ;;
  when ok
    (i <- self this ;;
     let found := std_find (m_IdentityChanged i) f in
     when (negb (Nat.eqb found (length (m_IdentityChanged i))))
       (assign this (fun i => with_IdentityChanged (erase (m_IdentityChanged i) found) i))).

Definition ContainsOnIdentityChanged (this f : ptr) : M bool :=
  ok <- nonnull_with_target f ;;
  if ok then
    i <- self this ;;
    let found := std_find (m_IdentityChanged i) f in
    ret (negb (Nat.eqb found (length (m_IdentityChanged i))))
  else ret false.

Definition AddOnValueChanged (this f : ptr) : M ptr :=
  ok <- nonnull_with_target f ;;
  when ok (assign this (fun i => with_ValueChanged (push_back (m_ValueChanged i) f) i)) ;;;
  ret this.

Definition AddOnValueChangedUnique (this f : ptr) : M ptr :=
  ok <- nonnull_with_target f ;;
  when ok
    (i <- self this ;;
     let found := std_find (m_ValueChanged i) f in
     when (Nat.eqb found (length (m_ValueChanged i)))
       (assign this (fun i => with_ValueChanged (push_back (m_ValueChanged i) f) i))) ;;;
  ret this.

Definition RemoveOnValueChanged (this f : ptr) : M unit :=
  ok <- nonnull_with_target f ;;
  when ok
    (i <- self this ;;
     let found := std_find (m_ValueChanged i) f in
     when (negb (Nat.eqb found (length (m_ValueChanged i))))
       (assign this (fun i => with_ValueChanged (erase (m_ValueChanged i) found) i))).

Definition ContainsOnValueChanged (this f : ptr) : M bool :=
  ok <- nonnull_with_target f ;;
  if ok then
    i <- self this ;;
    let found := std_find (m_ValueChanged i) f in
    ret (negb (Nat.eqb found (length (m_ValueChanged i))))
  else ret false.

(** *** Identity and value *)

Definition SetIdentity (this : ptr) (value : T) (andUpdate : bool) : M unit :=
  i <- self this ;;
  if T_ne (m_Identity i) value then
    let last := m_Identity i in
    assign this (with_Identity value) ;;;
    when andUpdate (ForceUpdate this) ;;;
    i' <- self this ;;
    notify (m_IdentityChanged i') this last (m_Identity i')
  else ret tt.

Definition GetValue (this : ptr) (andForceUpdate : bool) : M T :=
  when andForceUpdate (ForceUpdate this) ;;;
  i <- self this ;;
  ret (m_LastValue i).

(** ** The scoped listener wrappers

    [InspectableScopedValueChangedFunc<T>] and
    [InspectableScopedIdentityChangedFunc<T>] have the same two members: the
    inspectable pointer and the [std::function] object [m_OnValueChanged].
    That object is part of the wrapper, so its address is fixed; the wrapper
    is modelled by the pointer and that address, the function itself being in
    the world's store of listener objects. *)

Record ScopedListener : Type := {
  m_Inspectable : ptr;
  m_OnValueChanged : ptr
}.

Definition InspectableScopedValueChangedFunc := ScopedListener.
Definition InspectableScopedIdentityChangedFunc := ScopedListener.

(** [m_Inspectable && m_OnValueChanged] *)
Definition bound_pair (s : ScopedListener) : M bool :=
  fun w => (Normal (negb (is_null (m_Inspectable s))
                    && has_target (functions w (m_OnValueChanged s))), w).

Definition store_function (at_ : ptr) (func : TValueChangedFunc) : M unit :=
  fun w => (Normal tt, put_function at_ func w).

(** The constructor taking an inspectable and a function, for a wrapper whose
    member sits at [member]; and the destructor.  Both pass
    [&m_OnValueChanged]. *)
Definition ScopedValueChanged_new (member inspectable : ptr) (func : TValueChangedFunc)
    : M InspectableScopedValueChangedFunc :=
  let s := {| m_Inspectable := inspectable; m_OnValueChanged := member |} in
  store_function member func ;;;
  b <- bound_pair s ;;
  (if b then AddOnValueChanged (m_Inspectable s) (m_OnValueChanged s) ;;; ret tt else ret tt) ;;;
  ret s.

Definition ScopedValueChanged_delete (s : InspectableScopedValueChangedFunc) : M unit :=
  b <- bound_pair s ;;
  when b (RemoveOnValueChanged (m_Inspectable s) (m_OnValueChanged s)).

(** [Set], [SetInspectable] and [SetFunc] hand [RemoveOnValueChanged] and
    [AddOnValueChanged], which take a [TValueChangedFunc*], the function
    object by name ([m_OnValueChanged], [func]) where the constructor and the
    destructor write [&m_OnValueChanged].  The registry holds addresses, so
    each such argument is read here as the address of the object named:
    [m_OnValueChanged] as the member's address, and [func], the by-value
    parameter of [Set], as the address [func_at] at which the call placed
    that parameter. *)
Definition ScopedValueChanged_Set (s : InspectableScopedValueChangedFunc)
    (inspectable : ptr) (func_at : ptr) (func : TValueChangedFunc)
    : M InspectableScopedValueChangedFunc :=
  store_function func_at func ;;;
  b <- bound_pair s ;;
  when b (RemoveOnValueChanged (m_Inspectable s) (m_OnValueChanged s)) ;;;
  let s' := {| m_Inspectable := inspectable; m_OnValueChanged := m_OnValueChanged s |} in
  store_function (m_OnValueChanged s') func ;;;
  b' <- bound_pair s' ;;
  (if b' then AddOnValueChanged (m_Inspectable s') func_at ;;; ret tt else ret tt) ;;;
  ret s'.

Definition ScopedValueChanged_SetInspectable (s : InspectableScopedValueChangedFunc)
    (inspectable : ptr) : M InspectableScopedValueChangedFunc :=
  b <- bound_pair s ;;
  when b (RemoveOnValueChanged (m_Inspectable s) (m_OnValueChanged s)) ;;;
  let s' := {| m_Inspectable := inspectable; m_OnValueChanged := m_OnValueChanged s |} in
  b' <- bound_pair s' ;;
  (if b' then AddOnValueChanged (m_Inspectable s') (m_OnValueChanged s') ;;; ret tt
   else ret tt) ;;;
  ret s'.

Definition ScopedValueChanged_SetFunc (s : InspectableScopedValueChangedFunc)
    (func : TValueChangedFunc) : M InspectableScopedValueChangedFunc :=
  b <- bound_pair s ;;
  when b (RemoveOnValueChanged (m_Inspectable s) (m_OnValueChanged s)) ;;;
  store_function (m_OnValueChanged s) func ;;;
  b' <- bound_pair s ;;
  (if b' then AddOnValueChanged (m_Inspectable s) (m_OnValueChanged s) ;;; ret tt
   else ret tt) ;;;
  ret s.

Definition ScopedIdentityChanged_new (member inspectable : ptr) (func : TValueChangedFunc)
    : M InspectableScopedIdentityChangedFunc :=
  let s := {| m_Inspectable := inspectable; m_OnValueChanged := member |} in
  store_function member func ;;;
  b <- bound_pair s ;;
  (if b then AddOnIdentityChanged (m_Inspectable s) (m_OnValueChanged s) ;;; ret tt
   else ret tt) ;;;
  ret s.

Definition ScopedIdentityChanged_delete (s : InspectableScopedIdentityChangedFunc) : M unit :=
  b <- bound_pair s ;;
  when b (RemoveOnIdentityChanged (m_Inspectable s) (m_OnValueChanged s)).

Definition ScopedIdentityChanged_Set (s : InspectableScopedIdentityChangedFunc)
    (inspectable : ptr) (func_at : ptr) (func : TValueChangedFunc)
    : M InspectableScopedIdentityChangedFunc :=
  store_function func_at func ;;;
  b <- bound_pair s ;;
  when b (RemoveOnIdentityChanged (m_Inspectable s) (m_OnValueChanged s)) ;;;
  let s' := {| m_Inspectable := inspectable; m_OnValueChanged := m_OnValueChanged s |} in
  store_function (m_OnValueChanged s') func ;;;
  b' <- bound_pair s' ;;
  (if b' then AddOnIdentityChanged (m_Inspectable s') func_at ;;; ret tt else ret tt) ;;;
  ret s'.

Definition ScopedIdentityChanged_SetInspectable (s : InspectableScopedIdentityChangedFunc)
    (inspectable : ptr) : M InspectableScopedIdentityChangedFunc :=
  b <- bound_pair s ;;
  when b (RemoveOnIdentityChanged (m_Inspectable s) (m_OnValueChanged s)) ;;;
  let s' := {| m_Inspectable := inspectable; m_OnValueChanged := m_OnValueChanged s |} in
  b' <- bound_pair s' ;;
  (if b' then AddOnIdentityChanged (m_Inspectable s') (m_OnValueChanged s') ;;; ret tt
   else ret tt) ;;;
  ret s'.

Definition ScopedIdentityChanged_SetFunc (s : InspectableScopedIdentityChangedFunc)
    (func : TValueChangedFunc) : M InspectableScopedIdentityChangedFunc :=
  b <- bound_pair s ;;
  when b (RemoveOnIdentityChanged (m_Inspectable s) (m_OnValueChanged s)) ;;;
  store_function (m_OnValueChanged s) func ;;;
  b' <- bound_pair s ;;
  (if b' then AddOnIdentityChanged (m_Inspectable s) (m_OnValueChanged s) ;;; ret tt
   else ret tt) ;;;
  ret s.

(** ** The vocabulary of the properties *)

(** The transformations a recompute applies: enabled, with a target. *)
Definition applied (w : World) (p : ptr) : bool :=
  IsEnabled (transformations w p) && has_target (GetTransformFunc (transformations w p)).

(** Applying every function of a list of transformations in turn; [None] when
    one of them has no target or raises. *)
Fixpoint chain (w : World) (ps : list ptr) (v : T) : option T :=
  match ps with
  | [] => Some v
  | p :: rest =>
      match m_Function (transformations w p) with
      | Some target =>
          match target v with
          | Returns v' => chain w rest v'
          | Throws _ _ => None
          end
      | None => None
      end
  end.

(** The value a recompute of the inspectable at [this] arrives at. *)
Definition transformed (w : World) (this : ptr) : option T :=
  let i := inspectables w this in
  chain w (filter (applied w) (m_Transformations i)) (m_Identity i).

(** The walk a recompute of [this] makes. *)
Definition walk (w : World) (this : ptr) : result T :=
  apply_transformations w (m_Transformations (inspectables w this))
    (m_Identity (inspectables w this)).

(** What [AddTransformation] and [AddTransformationUnique] do once they have
    decided to add: append, sort, recompute if asked. *)
Definition add_sort_update (this p : ptr) (andUpdate : bool) : M ptr :=
  assign this (fun i => with_Transformations (push_back (m_Transformations i) p) i) ;;;
  SortTransformations this ;;;
  when andUpdate (ForceUpdate this) ;;;
  ret this.

(** Every listener of the list has a target, and that target returns when
    called with [(this, last, value)]. *)
Definition quiet (w : World) (fs : list ptr) (this : ptr) (last value : T) : bool :=
  forallb (fun f => match functions w f with
                    | Some target => match target this last value with
                                     | None => true
                                     | Some _ => false
                                     end
                    | None => false
                    end) fs.

(** The invocations of the listeners [fs] with [(this, last, value)], in the
    order of [fs]. *)
Definition invocations (fs : list ptr) (this : ptr) (last value : T) : list Call :=
  map (fun f => {| callee := f; subject := this; lastValue := last; newValue := value |}) fs.

(** Removing the first element equal to [p]. *)
Fixpoint remove_first (p : ptr) (l : list ptr) : list ptr :=
  match l with
  | [] => []
  | x :: r => if Nat.eqb x p then r else x :: remove_first p r
  end.

(** Descending priority along a list of transformations. *)
Definition descending (w : World) (l : list ptr) : Prop :=
  StronglySorted (fun a b => (GetPriority (transformations w a)
                              >= GetPriority (transformations w b))%Z) l.

(** [a] stands before [b] in [l]. *)
Definition precedes (l : list ptr) (a b : ptr) : Prop :=
  exists l1 l2 l3, l = l1 ++ a :: l2 ++ b :: l3.

(** [n] recomputes in a row; the world after the last one. *)
Fixpoint ForceUpdate_times (n : nat) (this : ptr) (w : World) : World :=
  match n with
  | 0 => w
  | S k => ForceUpdate_times k this (snd (ForceUpdate this w))
  end.

End Inspectable.

Arguments Returns {T} v.
Arguments Throws {T} e v.

(** ** Instances of the value type *)

(** [int]: within the range of the examples no operation overflows. *)
Definition int_ne (a b : Z) : bool := negb (Z.eqb a b).

(** [double]: IEEE 754 binary64, whose [!=] is the negation of [==]. *)
Definition double_ne (a b : float) : bool := negb (PrimFloat.eqb a b).

(** A world with nothing registered anywhere. *)
Definition blank {T : Type} (v : T) : World T :=
  {| transformations := fun _ => {| m_Priority := 0; m_Enabled := false; m_Function := None |};
     functions := fun _ => None;
     inspectables := fun _ => Inspectable_new v;
     calls := [] |}.

(** The README's running example on [int]: the inspectable at address 1 has
    identity 10 and one value-changed listener, at address 21. *)
Definition watcher : TValueChangedFunc Z := Some (fun _ _ _ => None).

Definition times2 : TTransformFunc Z := Some (fun v => Returns (v * 2)%Z).
Definition plus2 : TTransformFunc Z := Some (fun v => Returns (v + 2)%Z).

Definition speed_world : World Z :=
  put 1 (with_ValueChanged [21] (Inspectable_new 10%Z))
    (put_function 21 watcher (blank 0%Z)).

(** An [Inspectable<double>] at address 1 whose identity is a NaN, with one
    value-changed listener. *)
Definition nan_world : World float :=
  put 1 (with_ValueChanged [21] (Inspectable_new PrimFloat.nan))
    (put_function 21 (Some (fun _ _ _ => None)) (blank PrimFloat.zero)).

(** The same with the multiply-by-2 transformation, at address 11, set and in
    the slot list, and no recompute made yet. *)
Definition pill : InspectableTransformation Z :=
  {| m_Priority := 0; m_Enabled := true; m_Function := times2 |}.

Definition pill_world : World Z :=
  put 1 (with_Transformations [11] (inspectables speed_world 1))
    (put_transformation 11 pill speed_world).

(** A transformation whose function has no target. *)
Definition untargeted : InspectableTransformation Z :=
  {| m_Priority := 0; m_Enabled := true; m_Function := None |}.

(** A default-constructed scoped listener whose function member sits at
    address 31: no inspectable, no target. *)
Definition idle_listener : ScopedListener :=
  {| m_Inspectable := nullptr; m_OnValueChanged := 31 |}.

(** ** InspectableScopedTransformation<T>

    The wrapper owns one transformation, [m_Transformation], and points to
    one inspectable.  The transformation is part of the wrapper, so its
    address is fixed and never null; the wrapper is modelled by the
    inspectable pointer, that address and the flag, the transformation itself
    being in the world's store. *)

Module ScopedTransformation.
Section Members.

Variable T : Type.
Variable T_ne : T -> T -> bool.
Context {sorter : StdSort}.

Local Notation "x <- m ;; k" := (bind m (fun x => k))
  (at level 61, m at next level, right associativity).
Local Notation "m ;;; k" := (bind m (fun _ => k))
  (at level 61, right associativity).

Record InspectableScopedTransformation : Type := {
  m_Inspectable : ptr;
  m_Transformation : ptr;
  m_UpdateOnDestroy : bool
}.

(** [InspectableTransformation()]: the function is empty; the priority and
    the flag are not initialised, so they are what the storage held. *)
Definition Transformation_default (storage : InspectableTransformation T)
    : InspectableTransformation T :=
  {| m_Priority := m_Priority storage; m_Enabled := m_Enabled storage; m_Function := None |}.

(** A member function of the transformation at [p], as a step of the world. *)
Definition on_transformation (p : ptr)
    (f : InspectableTransformation T -> InspectableTransformation T) : M T unit :=
  fun w => (Normal tt, put_transformation p (f (transformations w p)) w).

(** [InspectableScopedTransformation(inspectable, updateOnDestroy)], for a
    wrapper whose transformation sits at [member]. *)
Definition new_unset (member inspectable : ptr) (updateOnDestroy : bool)
    : M T InspectableScopedTransformation :=
  on_transformation member Transformation_default ;;;
  ret {| m_Inspectable := inspectable; m_Transformation := member;
         m_UpdateOnDestroy := updateOnDestroy |}.

(** [InspectableScopedTransformation(inspectable, func, priority, enabled,
    andUpdate, updateOnDestroy)]. *)
Definition new (member inspectable : ptr) (func : TTransformFunc T) (priority : Z)
    (enabled andUpdate updateOnDestroy : bool) : M T InspectableScopedTransformation :=
  let s := {| m_Inspectable := inspectable; m_Transformation := member;
              m_UpdateOnDestroy := updateOnDestroy |} in
  on_transformation member
    (fun _ => {| m_Priority := priority; m_Enabled := enabled; m_Function := func |}) ;;;
  (if negb (is_null (m_Inspectable s)) then
     AddTransformation T_ne (m_Inspectable s) (m_Transformation s) false ;;;
     when andUpdate (ForceUpdate T_ne (m_Inspectable s))
   else ret tt) ;;;
  ret s.

(** [~InspectableScopedTransformation()] *)
Definition delete (s : InspectableScopedTransformation) : M T unit :=
  if negb (is_null (m_Inspectable s)) then
    RemoveTransformation T_ne (m_Inspectable s) (m_Transformation s) false ;;;
    when (m_UpdateOnDestroy s) (ForceUpdate T_ne (m_Inspectable s))
  else ret tt.

Definition Set_ (s : InspectableScopedTransformation) (func : TTransformFunc T)
    (priority : Z) (enabled andUpdate : bool) : M T unit :=
  on_transformation (m_Transformation s) (Transformation_Set func priority enabled) ;;;
  when (negb (is_null (m_Inspectable s)) && andUpdate) (ForceUpdate T_ne (m_Inspectable s)).

Definition SetUpdateOnDestroy (s : InspectableScopedTransformation) (updateOnDestroy : bool)
    : InspectableScopedTransformation :=
  {| m_Inspectable := m_Inspectable s; m_Transformation := m_Transformation s;
     m_UpdateOnDestroy := updateOnDestroy |}.

(** [Enable(andUpdate)] and [Disable(andUpdate)]: on the right of each, the
    member function of the transformation. *)
Definition Enable (s : InspectableScopedTransformation) (andUpdate : bool) : M T unit :=
  on_transformation (m_Transformation s) (@Enable T) ;;;
  when (negb (is_null (m_Inspectable s)) && andUpdate) (ForceUpdate T_ne (m_Inspectable s)).

Definition Disable (s : InspectableScopedTransformation) (andUpdate : bool) : M T unit :=
  on_transformation (m_Transformation s) (@Disable T) ;;;
  when (negb (is_null (m_Inspectable s)) && andUpdate) (ForceUpdate T_ne (m_Inspectable s)).

Definition IsEnabled (s : InspectableScopedTransformation) : M T bool :=
  fun w => (Normal (IsEnabled (transformations w (m_Transformation s))), w).

Definition GetPriority (s : InspectableScopedTransformation) : M T Z :=
  fun w => (Normal (GetPriority (transformations w (m_Transformation s))), w).

Definition GetTransformFunc (s : InspectableScopedTransformation) : M T (TTransformFunc T) :=
  fun w => (Normal (GetTransformFunc (transformations w (m_Transformation s))), w).

(** [operator()(T& input)]: [m_Transformation(input)]. *)
Definition call_operator (s : InspectableScopedTransformation) (input : T) (w : World T)
    : outcome T :=
  call_operator (transformations w (m_Transformation s)) input.

End Members.
End ScopedTransformation.

(** Strictly descending priority along a list of transformations: no two of
    them have the same priority. *)
Definition strictly_descending {T : Type} (w : World T) (l : list ptr) : Prop :=
  StronglySorted (fun a b => (GetPriority (transformations w a)
                              > GetPriority (transformations w b))%Z) l.

(** Further worlds on the README's example.  A transformation that raises,
    at address 12, behind the multiply-by-2 one. *)
Definition failing : TTransformFunc Z := Some (fun v => Throws (host_error 7) v).

Definition failing_world : World Z :=
  put 1 (with_Transformations [11; 12] (inspectables pill_world 1))
    (put_transformation 12
       {| m_Priority := (-1); m_Enabled := true; m_Function := failing |} pill_world).

(** A second value-changed listener, at address 22, that raises. *)
Definition complaining_world : World Z :=
  put 1 (with_ValueChanged [21; 22] (inspectables pill_world 1))
    (put_function 22 (Some (fun _ _ _ => Some (host_error 3))) pill_world).

(** The listener at 21 registered, its function since emptied. *)
Definition emptied_world : World Z := put_function 21 None pill_world.

(** A function with a target at address 22, registered nowhere. *)
Definition second_watcher_world : World Z := put_function 22 watcher speed_world.

(** * Properties *)

Unset Implicit Arguments.

(** ** The containers *)

(** [std::find] returns [end()] exactly when no element is equal to [p]. *)
Lemma std_find_end (l : list ptr) (p : ptr) :
  Nat.eqb (std_find l p) (length l) = true <-> ~ In p l.
Proof.
  induction l as [|x r IH]; simpl.
  - split; [intros _ []|reflexivity].
  - destruct (Nat.eqb x p) eqn:E.
    + apply Nat.eqb_eq in E. split; [discriminate|]. intros H. exfalso. apply H. now left.
    + apply Nat.eqb_neq in E. change (Nat.eqb (S (std_find r p)) (S (length r)))
        with (Nat.eqb (std_find r p) (length r)).
      rewrite IH. split; intros H; [intros [F|F]; [now apply E|now apply H]|].
      intros F. apply H. now right.
Qed.

Lemma std_find_found (l : list ptr) (p : ptr) :
  In p l -> Nat.eqb (std_find l p) (length l) = false.
Proof.
  intros H. destruct (Nat.eqb (std_find l p) (length l)) eqn:E; [|reflexivity].
  apply std_find_end in E. contradiction.
Qed.

(** Erasing at the iterator [std::find] returns removes the first match. *)
Lemma erase_std_find (l : list ptr) (p : ptr) :
  erase l (std_find l p) = remove_first p l.
Proof.
  induction l as [|x r IH]; simpl; [reflexivity|].
  destruct (Nat.eqb x p); [reflexivity|]. now rewrite IH.
Qed.

Lemma remove_first_absent (l : list ptr) (p : ptr) : ~ In p l -> remove_first p l = l.
Proof.
  induction l as [|x r IH]; simpl; intros H; [reflexivity|].
  destruct (Nat.eqb x p) eqn:E.
  - apply Nat.eqb_eq in E. exfalso. apply H. now left.
  - f_equal. apply IH. intros F. apply H. now right.
Qed.

(** The first match goes and nothing else does: the list splits around it. *)
Lemma remove_first_split (l : list ptr) (p : ptr) :
  In p l ->
  exists l1 l2, l = l1 ++ p :: l2 /\ ~ In p l1 /\ remove_first p l = l1 ++ l2.
Proof.
  induction l as [|x r IH]; simpl; intros H; [contradiction|].
  destruct (Nat.eqb x p) eqn:E.
  - apply Nat.eqb_eq in E. subst x. exists [], r. repeat split. intros [].
  - apply Nat.eqb_neq in E. destruct H as [H|H]; [contradiction|].
    destruct (IH H) as (l1 & l2 & -> & Hn & ->).
    exists (x :: l1), l2. repeat split. intros [F|F]; [now apply E|now apply Hn].
Qed.

(** ** Sorting *)

Lemma insert_sorted_perm (comp : ptr -> ptr -> bool) (x : ptr) (l : list ptr) :
  Permutation (x :: l) (insert_sorted comp x l).
Proof.
  induction l as [|y r IH]; simpl; [apply Permutation_refl|].
  destruct (comp y x); [|apply Permutation_refl].
  apply perm_trans with (y :: x :: r); [apply perm_swap|now apply perm_skip].
Qed.

Lemma insertion_sort_perm (comp : ptr -> ptr -> bool) (l : list ptr) :
  Permutation l (insertion_sort comp l).
Proof.
  induction l as [|x r IH]; simpl; [apply perm_nil|].
  apply perm_trans with (x :: insertion_sort comp r).
  - now apply perm_skip.
  - apply insert_sorted_perm.
Qed.

Lemma insert_sorted_sorted (comp : ptr -> ptr -> bool) (x : ptr) (l : list ptr) :
  StrictWeakOrder comp ->
  StronglySorted (fun a b => comp b a = false) l ->
  StronglySorted (fun a b => comp b a = false) (insert_sorted comp x l).
Proof.
  intros O. induction l as [|y r IH]; simpl; intros S.
  - constructor; constructor.
  - inversion S as [|? ? Sr Fr]; subst.
    destruct (comp y x) eqn:E.
    + constructor; [now apply IH|].
      apply Forall_forall. intros z Hz.
      apply (Permutation_in _ (Permutation_sym (insert_sorted_perm comp x r))) in Hz.
      destruct Hz as [<-|Hz].
      * destruct (comp x y) eqn:E'; [|reflexivity].
        pose proof (swo_trans O _ _ _ E E') as F. now rewrite (swo_irrefl O) in F.
      * now apply (proj1 (Forall_forall _ _) Fr).
    + constructor; [exact S|].
      constructor; [exact E|].
      apply Forall_forall. intros z Hz.
      apply (swo_negtrans O z y x); [|exact E].
      now apply (proj1 (Forall_forall _ _) Fr).
Qed.

Lemma insertion_sort_sorted (comp : ptr -> ptr -> bool) (l : list ptr) :
  StrictWeakOrder comp ->
  StronglySorted (fun a b => comp b a = false) (insertion_sort comp l).
Proof.
  intros O. induction l as [|x r IH]; simpl; [constructor|].
  now apply insert_sorted_sorted.
Qed.

(** Both sorts meet the contract of [std::sort]. *)
Definition stable_sorter : StdSort := {|
  std_sort := insertion_sort;
  std_sort_perm := insertion_sort_perm;
  std_sort_sorted := insertion_sort_sorted
|}.

Lemma reversing_sort_perm (comp : ptr -> ptr -> bool) (l : list ptr) :
  Permutation l (reversing_sort comp l).
Proof.
  apply perm_trans with (rev l); [apply Permutation_rev|apply insertion_sort_perm].
Qed.

Lemma reversing_sort_sorted (comp : ptr -> ptr -> bool) (l : list ptr) :
  StrictWeakOrder comp ->
  StronglySorted (fun a b => comp b a = false) (reversing_sort comp l).
Proof. intros O. now apply insertion_sort_sorted. Qed.

Definition reversing_sorter : StdSort := {|
  std_sort := reversing_sort;
  std_sort_perm := reversing_sort_perm;
  std_sort_sorted := reversing_sort_sorted
|}.

(** ** The world *)

Section Theory.

Variable T : Type.
Variable T_ne : T -> T -> bool.
Context {sorter : StdSort}.

Implicit Types (w : World T) (this p : ptr) (v : T).

Lemma upd_same (X : Type) (h : ptr -> X) p (x : X) : upd h p x p = x.
Proof. unfold upd. now rewrite Nat.eqb_refl. Qed.

Lemma upd_other (X : Type) (h : ptr -> X) p q (x : X) : q <> p -> upd h p x q = h q.
Proof. intros H. unfold upd. apply Nat.eqb_neq in H. now rewrite H. Qed.

Lemma record_calls_nil w : record_calls [] w = w.
Proof. destruct w. unfold record_calls. simpl. now rewrite app_nil_r. Qed.

Lemma record_calls_app w (cs cs' : list (Call T)) :
  record_calls cs' (record_calls cs w) = record_calls (cs ++ cs') w.
Proof. unfold record_calls. simpl. now rewrite app_assoc. Qed.

(** ** Walking the transformations *)

(** The guarded walk of [ForceUpdate] is the unguarded application of the
    transformations that are enabled and have a target. *)
Lemma apply_transformations_chain w (ts : list ptr) v v' :
  chain w (filter (applied w) ts) v = Some v' <->
  apply_transformations w ts v = Normal v'.
Proof.
  revert v. induction ts as [|t r IH]; intros v; simpl.
  - split; intros H; inversion H; reflexivity.
  - unfold applied at 1. destruct (IsEnabled (transformations w t)
                         && has_target (GetTransformFunc (transformations w t))) eqn:E.
    + simpl. unfold call_operator.
      apply andb_true_iff in E. destruct E as [_ E]. unfold GetTransformFunc in E.
      destruct (m_Function (transformations w t)) as [target|]; [|discriminate].
      destruct (target v) as [v1|e v1]; [apply IH|]. split; discriminate.
    + apply IH.
Qed.

(** A walk that raises leaves the cached value alone: the world is the one
    the recompute started from. *)
Lemma ForceUpdate_raised_in_walk w this e :
  apply_transformations w (m_Transformations (inspectables w this))
    (m_Identity (inspectables w this)) = Raised e ->
  ForceUpdate T_ne this w = (Raised e, w).
Proof. intros H. unfold ForceUpdate, bind, self. now rewrite H. Qed.

(** ** Notifying *)

Lemma notify_quiet (fs : list ptr) this (a b : T) w :
  quiet w fs this a b = true ->
  notify fs this a b w = (Normal tt, record_calls (invocations fs this a b) w).
Proof.
  revert w. induction fs as [|f r IH]; intros w H; simpl.
  - unfold ret. now rewrite record_calls_nil.
  - simpl in H. apply andb_true_iff in H. destruct H as [Hf Hr].
    unfold bind, invoke.
    destruct (functions w f) as [target|]; [|discriminate].
    destruct (target this a b); [discriminate|].
    rewrite IH by exact Hr. now rewrite record_calls_app.
Qed.

(** Whatever the listeners do, notifying only appends, to the trace, calls of
    a front part of the list, each with the arguments given. *)
Lemma notify_trace (fs : list ptr) this (a b : T) w :
  exists cs rest, snd (notify fs this a b w) = record_calls cs w
                  /\ invocations fs this a b = cs ++ rest.
Proof.
  revert w. induction fs as [|f r IH]; intros w; simpl.
  - exists [], []. split; [now rewrite record_calls_nil|reflexivity].
  - unfold bind, invoke. destruct (functions w f) as [target|].
    + destruct (target this a b) as [e|].
      * simpl. eexists [_], _. split; reflexivity.
      * destruct (IH (record_calls
          [{| callee := f; subject := this; lastValue := a; newValue := b |}] w))
          as (cs & rest & E & P).
        rewrite E, record_calls_app. eexists (_ :: cs), rest. split; [reflexivity|].
        simpl. now rewrite <- P.
    + simpl. exists [], (invocations (f :: r) this a b).
      split; [now rewrite record_calls_nil|reflexivity].
Qed.

(** ** ForceUpdate *)

Lemma apply_transformations_ext w w' (ts : list ptr) v :
  transformations w' = transformations w ->
  apply_transformations w' ts v = apply_transformations w ts v.
Proof.
  intros E. revert v. induction ts as [|t r IH]; intros v; simpl; [reflexivity|].
  rewrite E. destruct (IsEnabled (transformations w t) && _); [|apply IH].
  destruct (call_operator (transformations w t) v); [apply IH|reflexivity].
Qed.

(** A recompute whose walk returns [v] and whose listeners, if they are to be
    called, return: the world it leaves. *)
Lemma ForceUpdate_normal w this v :
  transformed w this = Some v ->
  (T_ne (m_LastValue (inspectables w this)) v = true ->
   quiet w (m_ValueChanged (inspectables w this)) this
     (m_LastValue (inspectables w this)) v = true) ->
  ForceUpdate T_ne this w =
    (Normal tt,
     record_calls
       (if T_ne (m_LastValue (inspectables w this)) v
        then invocations (m_ValueChanged (inspectables w this)) this
               (m_LastValue (inspectables w this)) v
        else [])
       (put this (with_LastValue v (inspectables w this)) w)).
Proof.
  intros Hv Hq. unfold transformed in Hv. apply apply_transformations_chain in Hv.
  unfold ForceUpdate, bind, self. rewrite Hv. unfold assign, when.
  destruct (T_ne (m_LastValue (inspectables w this)) v).
  - simpl. rewrite upd_same. simpl. now apply notify_quiet, Hq.
  - unfold ret. now rewrite record_calls_nil.
Qed.

(** Whatever the functions do, a recompute either raises in the walk and
    changes nothing, or assigns the walk's value to [m_LastValue] and appends
    calls to the trace: none when the value is not unequal to the previous
    one. *)
Lemma ForceUpdate_shape w this :
  (exists e, walk w this = Raised e /\ ForceUpdate T_ne this w = (Raised e, w))
  \/
  (exists v cs, walk w this = Normal v
     /\ snd (ForceUpdate T_ne this w)
        = record_calls cs (put this (with_LastValue v (inspectables w this)) w)
     /\ (T_ne (m_LastValue (inspectables w this)) v = false ->
         cs = [] /\ fst (ForceUpdate T_ne this w) = Normal tt)).
Proof.
  unfold walk. destruct (apply_transformations w _ _) as [v|e] eqn:E.
  - right. unfold ForceUpdate, bind, self. rewrite E. unfold assign, when.
    destruct (T_ne (m_LastValue (inspectables w this)) v) eqn:N.
    + simpl. rewrite upd_same. simpl.
      destruct (notify_trace (m_ValueChanged (inspectables w this)) this
                  (m_LastValue (inspectables w this)) v
                  (put this (with_LastValue v (inspectables w this)) w))
        as (cs & rest & Hs & _).
      exists v, cs. split; [reflexivity|]. split; [exact Hs|intros F; congruence].
    + exists v, []. split; [reflexivity|]. unfold ret. simpl.
      split; [now rewrite record_calls_nil|]. intros _. now split.
  - left. exists e. split; [reflexivity|]. now apply ForceUpdate_raised_in_walk.
Qed.

(** A recompute touches no transformation object, no listener object, no
    other inspectable, and of this one only [m_LastValue]. *)
Lemma ForceUpdate_frame w this :
  let w' := snd (ForceUpdate T_ne this w) in
  transformations w' = transformations w
  /\ functions w' = functions w
  /\ (forall q, q <> this -> inspectables w' q = inspectables w q)
  /\ inspectables w' this
     = with_LastValue (m_LastValue (inspectables w' this)) (inspectables w this).
Proof.
  destruct (ForceUpdate_shape w this) as [(e & _ & E)|(v & cs & _ & E & _)];
    simpl; rewrite E; simpl.
  - repeat split. now destruct (inspectables w this).
  - repeat split.
    + intros q Hq. now apply upd_other.
    + now rewrite upd_same.
Qed.

Lemma ForceUpdate_keeps_walk w this :
  walk (snd (ForceUpdate T_ne this w)) this = walk w this.
Proof.
  destruct (ForceUpdate_frame w this) as (Et & _ & _ & Ei).
  unfold walk. rewrite Ei. simpl. now apply apply_transformations_ext.
Qed.

(** Once a recompute has been made, a further one leaves the cached value as
    it is, and the trace too unless that value is unequal to itself. *)
Lemma ForceUpdate_again w this :
  let w1 := snd (ForceUpdate T_ne this w) in
  let w2 := snd (ForceUpdate T_ne this w1) in
  m_LastValue (inspectables w2 this) = m_LastValue (inspectables w1 this)
  /\ (T_ne (m_LastValue (inspectables w1 this)) (m_LastValue (inspectables w1 this)) = false ->
      calls w2 = calls w1).
Proof.
  intros w1 w2. pose proof (ForceUpdate_keeps_walk w this) as K. fold w1 in K.
  destruct (ForceUpdate_shape w this) as [(e & W & E)|(v & cs & W & E & _)].
  - assert (E1 : w1 = w) by (unfold w1; now rewrite E).
    assert (E2 : w2 = w).
    { unfold w2. rewrite E1. now rewrite E. }
    rewrite E2, E1. now split.
  - assert (L1 : m_LastValue (inspectables w1 this) = v).
    { unfold w1. rewrite E. simpl. now rewrite upd_same. }
    rewrite W in K.
    destruct (ForceUpdate_shape w1 this) as [(e & W1 & _)|(v1 & cs1 & W1 & E1 & N1)].
    + rewrite W1 in K. discriminate.
    + rewrite W1 in K. injection K as ->.
      unfold w2. rewrite E1. simpl. rewrite upd_same. simpl. rewrite L1.
      split; [reflexivity|]. intros I. rewrite L1 in N1.
      destruct (N1 I) as [-> _]. now rewrite app_nil_r.
Qed.

(** C1. [ForceUpdate] starts from a copy of the identity, applies in the order
    of the slot list exactly the transformations that are enabled and have a
    target ([transformed]), stores the result as the cached value, and
    extends the trace by one call [(this, previous, new)] per value-changed
    listener, in registration order, when the new value is unequal to the
    previous one, and by nothing otherwise.  Nothing else changes. *)
Theorem ForceUpdate_recomputes_and_notifies w this v :
  transformed w this = Some v ->
  (T_ne (m_LastValue (inspectables w this)) v = true ->
   quiet w (m_ValueChanged (inspectables w this)) this
     (m_LastValue (inspectables w this)) v = true) ->
  exists w',
    ForceUpdate T_ne this w = (Normal tt, w')
    /\ inspectables w' this = with_LastValue v (inspectables w this)
    /\ calls w' = calls w ++
         (if T_ne (m_LastValue (inspectables w this)) v
          then invocations (m_ValueChanged (inspectables w this)) this
                 (m_LastValue (inspectables w this)) v
          else [])
    /\ transformations w' = transformations w
    /\ functions w' = functions w
    /\ (forall q, q <> this -> inspectables w' q = inspectables w q).
Proof.
  intros Hv Hq. eexists. split; [exact (ForceUpdate_normal w this v Hv Hq)|].
  simpl. rewrite upd_same. repeat split.
  intros q Hn. now apply upd_other.
Qed.

(** C3, as the header has it.  The call operator of a transformation calls
    [m_Function] without a test: with a target, the outcome is the
    target's, the value it leaves and the exception it raises included; with
    no target the call raises [std::bad_function_call] and the value is left
    as it was.  It is the recompute that passes over a transformation without
    a target. *)
Theorem call_operator_calls_m_Function (t : InspectableTransformation T) v :
  (forall target, m_Function t = Some target -> call_operator t v = target v)
  /\ (m_Function t = None -> call_operator t v = Throws bad_function_call v)
  /\ (forall w p ts, m_Function (transformations w p) = None ->
        apply_transformations w (p :: ts) v = apply_transformations w ts v).
Proof.
  unfold call_operator. repeat split.
  - now intros target ->.
  - now intros ->.
  - intros w p ts E. simpl. unfold GetTransformFunc. rewrite E. simpl.
    now rewrite andb_false_r.
Qed.

(** C6, as the header has it.  After a recompute, any number of further
    recomputes leaves the cached value what that recompute made it; and no
    listener is called by them when that value is not unequal to itself
    under the value type's [!=]. *)
Theorem ForceUpdate_repeated w this (n : nat) :
  let w1 := snd (ForceUpdate T_ne this w) in
  let c := m_LastValue (inspectables w1 this) in
  m_LastValue (inspectables (ForceUpdate_times T_ne n this w1) this) = c
  /\ (T_ne c c = false -> calls (ForceUpdate_times T_ne n this w1) = calls w1).
Proof.
  revert w. induction n as [|k IH]; intros w w1 c; simpl.
  - now split.
  - destruct (IH w1) as [IHv IHc]. fold w1.
    destruct (ForceUpdate_again w this) as [Av Ac]. fold w1 in Av, Ac. fold c in Ac.
    rewrite Av in IHv, IHc. fold c in IHv, IHc.
    split; [exact IHv|].
    intros I. rewrite (IHc I). now apply Ac.
Qed.

(** ** SetIdentity and GetValue *)

Lemma SetIdentity_equal w this value andUpdate :
  T_ne (m_Identity (inspectables w this)) value = false ->
  SetIdentity T_ne this value andUpdate w = (Normal tt, w).
Proof. intros E. unfold SetIdentity, bind, self. now rewrite E. Qed.

(** With an unequal value and no recompute asked for, whatever the listeners
    do: the identity is assigned and the identity-changed listeners are
    called from the front of their list. *)
Lemma SetIdentity_only w this value :
  T_ne (m_Identity (inspectables w this)) value = true ->
  exists cs rest,
    snd (SetIdentity T_ne this value false w)
      = record_calls cs (put this (with_Identity value (inspectables w this)) w)
    /\ invocations (m_IdentityChanged (inspectables w this)) this
         (m_Identity (inspectables w this)) value = cs ++ rest.
Proof.
  intros E. unfold SetIdentity, bind, self. rewrite E. unfold assign, when, ret.
  simpl. rewrite upd_same. simpl. apply notify_trace.
Qed.

Lemma SetIdentity_only_quiet w this value :
  T_ne (m_Identity (inspectables w this)) value = true ->
  quiet w (m_IdentityChanged (inspectables w this)) this
    (m_Identity (inspectables w this)) value = true ->
  SetIdentity T_ne this value false w =
    (Normal tt,
     record_calls (invocations (m_IdentityChanged (inspectables w this)) this
                     (m_Identity (inspectables w this)) value)
       (put this (with_Identity value (inspectables w this)) w)).
Proof.
  intros E Q. unfold SetIdentity, bind, self. rewrite E. unfold assign, when, ret.
  simpl. rewrite upd_same. simpl. now apply notify_quiet.
Qed.

Lemma SetIdentity_update_quiet w this value v :
  let i := inspectables w this in
  let w1 := put this (with_Identity value i) w in
  T_ne (m_Identity i) value = true ->
  transformed w1 this = Some v ->
  (T_ne (m_LastValue i) v = true ->
   quiet w (m_ValueChanged i) this (m_LastValue i) v = true) ->
  quiet w (m_IdentityChanged i) this (m_Identity i) value = true ->
  SetIdentity T_ne this value true w =
    (Normal tt,
     record_calls
       ((if T_ne (m_LastValue i) v
         then invocations (m_ValueChanged i) this (m_LastValue i) v else [])
        ++ invocations (m_IdentityChanged i) this (m_Identity i) value)
       (put this (with_LastValue v (with_Identity value i)) w1)).
Proof.
  intros i w1 E Hv Hq Hi.
  assert (I1 : inspectables w1 this = with_Identity value i)
    by (unfold w1; simpl; apply upd_same).
  assert (F : ForceUpdate T_ne this w1 =
    (Normal tt,
     record_calls
       (if T_ne (m_LastValue i) v
        then invocations (m_ValueChanged i) this (m_LastValue i) v else [])
       (put this (with_LastValue v (with_Identity value i)) w1))).
  { rewrite (ForceUpdate_normal w1 this v Hv); rewrite I1; [reflexivity|exact Hq]. }
  unfold SetIdentity, bind, self. fold i. rewrite E. unfold assign, when.
  change (put this (with_Identity value (inspectables w this)) w) with w1.
  rewrite F. simpl. rewrite upd_same. simpl.
  rewrite notify_quiet by exact Hi. now rewrite record_calls_app.
Qed.

(** C4. [SetIdentity] with a value not unequal to the identity changes
    nothing and calls nothing.  With an unequal value it assigns the
    identity; recomputes if asked, the value-changed calls entering the
    trace first; then calls every identity-changed listener with
    [(this, previous identity, new identity)] in registration order. *)
Theorem SetIdentity_assigns_updates_notifies w this value andUpdate v :
  let i := inspectables w this in
  let w1 := put this (with_Identity value i) w in
  (T_ne (m_Identity i) value = false ->
   SetIdentity T_ne this value andUpdate w = (Normal tt, w))
  /\
  (T_ne (m_Identity i) value = true ->
   (andUpdate = true -> transformed w1 this = Some v) ->
   (andUpdate = true -> T_ne (m_LastValue i) v = true ->
    quiet w (m_ValueChanged i) this (m_LastValue i) v = true) ->
   quiet w (m_IdentityChanged i) this (m_Identity i) value = true ->
   exists w',
     SetIdentity T_ne this value andUpdate w = (Normal tt, w')
     /\ inspectables w' this
        = (if andUpdate then with_LastValue v (with_Identity value i)
           else with_Identity value i)
     /\ calls w' = calls w ++
          (if andUpdate && T_ne (m_LastValue i) v
           then invocations (m_ValueChanged i) this (m_LastValue i) v else [])
          ++ invocations (m_IdentityChanged i) this (m_Identity i) value).
Proof.
  intros i w1. split; [apply SetIdentity_equal|].
  intros E Hv Hq Hi. destruct andUpdate.
  - eexists. split; [apply SetIdentity_update_quiet; auto|].
    simpl. rewrite upd_same. now split.
  - eexists. split; [apply SetIdentity_only_quiet; assumption|].
    simpl. rewrite upd_same. now split.
Qed.

(** C10. [SetIdentity(newValue, false)] with an unequal value: of the
    inspectable only the identity changes, so the cached value, the slot list
    and both listener lists are as before; no other object changes; the trace
    grows by calls of identity-changed listeners only; and [GetValue(false)]
    then returns the cached value of before, leaving the world as it is. *)
Theorem SetIdentity_without_update_frame w this value :
  let i := inspectables w this in
  let w' := snd (SetIdentity T_ne this value false w) in
  T_ne (m_Identity i) value = true ->
  inspectables w' this = with_Identity value i
  /\ (forall q, q <> this -> inspectables w' q = inspectables w q)
  /\ transformations w' = transformations w
  /\ functions w' = functions w
  /\ (exists cs rest,
        calls w' = calls w ++ cs
        /\ invocations (m_IdentityChanged i) this (m_Identity i) value = cs ++ rest)
  /\ GetValue T_ne this false w' = (Normal (m_LastValue i), w').
Proof.
  intros i w' E. destruct (SetIdentity_only w this value E) as (cs & rest & Hw & Hc).
  fold w' in Hw. fold i in Hw, Hc.
  clearbody w'. subst w'. simpl.
  split; [apply upd_same|].
  split; [intros q Hn; now apply upd_other|].
  split; [reflexivity|]. split; [reflexivity|].
  split; [now exists cs, rest|].
  unfold GetValue, bind, when, ret, self. simpl. now rewrite upd_same.
Qed.

(** ** Adding and removing transformations *)

Lemma add_sort_update_frame w this p andUpdate :
  let w' := snd (add_sort_update T_ne this p andUpdate w) in
  m_Transformations (inspectables w' this)
    = std_sort (TransformationPredicate w)
        (push_back (m_Transformations (inspectables w this)) p)
  /\ transformations w' = transformations w.
Proof.
  unfold add_sort_update, bind, assign, SortTransformations. simpl.
  repeat rewrite upd_same. simpl.
  set (w2 := put this _ (put this _ w)).
  assert (L2 : m_Transformations (inspectables w2 this)
               = std_sort (TransformationPredicate w)
                   (push_back (m_Transformations (inspectables w this)) p))
    by (unfold w2; simpl; now rewrite upd_same).
  destruct andUpdate; simpl; [|now split].
  destruct (ForceUpdate_frame w2 this) as (Et & _ & _ & Ei).
  destruct (ForceUpdate T_ne this w2) as [[[]|e] w3]; simpl in *;
    rewrite Ei; simpl; now split.
Qed.

Lemma AddTransformation_adds w this p andUpdate :
  p <> nullptr ->
  AddTransformation T_ne this p andUpdate w = add_sort_update T_ne this p andUpdate w.
Proof.
  intros H. unfold AddTransformation, is_null.
  apply Nat.eqb_neq in H. now rewrite H.
Qed.

Lemma AddTransformationUnique_absent w this p andUpdate :
  p <> nullptr -> ~ In p (m_Transformations (inspectables w this)) ->
  AddTransformationUnique T_ne this p andUpdate w = add_sort_update T_ne this p andUpdate w.
Proof.
  intros H A. unfold AddTransformationUnique, is_null.
  apply Nat.eqb_neq in H. rewrite H. unfold bind at 1. unfold self at 1.
  apply std_find_end in A. now rewrite A.
Qed.

Lemma AddTransformationUnique_present w this p andUpdate :
  In p (m_Transformations (inspectables w this)) ->
  AddTransformationUnique T_ne this p andUpdate w = (Normal this, w).
Proof.
  intros A. unfold AddTransformationUnique. destruct (is_null p); [reflexivity|].
  unfold bind, self. now rewrite (std_find_found _ _ A).
Qed.

(** C7, as the header has it.  A second [AddTransformationUnique] of the same
    non-null pointer returns the inspectable with the world as the first call
    left it, so it recomputes nothing and a later recompute is the one that
    would have been made without it.  The pointer is registered: exactly
    once when it was registered at most once before the first call; and
    when it was registered before, by [AddTransformation] however often, the
    slot list is the one of before, its duplicates kept. *)
Theorem AddTransformationUnique_twice w this p (andUpdate1 andUpdate2 : bool) :
  p <> nullptr ->
  let w1 := snd (AddTransformationUnique T_ne this p andUpdate1 w) in
  AddTransformationUnique T_ne this p andUpdate2 w1 = (Normal this, w1)
  /\ In p (m_Transformations (inspectables w1 this))
  /\ (count_occ Nat.eq_dec (m_Transformations (inspectables w this)) p <= 1 ->
      count_occ Nat.eq_dec (m_Transformations (inspectables w1 this)) p = 1)
  /\ ForceUpdate T_ne this (snd (AddTransformationUnique T_ne this p andUpdate2 w1))
     = ForceUpdate T_ne this w1
  /\ (In p (m_Transformations (inspectables w this)) ->
      m_Transformations (inspectables w1 this) = m_Transformations (inspectables w this)).
Proof.
  intros Hp w1.
  assert (R : In p (m_Transformations (inspectables w1 this))
              /\ (count_occ Nat.eq_dec (m_Transformations (inspectables w this)) p <= 1 ->
                  count_occ Nat.eq_dec (m_Transformations (inspectables w1 this)) p = 1)).
  { destruct (in_dec Nat.eq_dec p (m_Transformations (inspectables w this))) as [A|A].
    - unfold w1. rewrite (AddTransformationUnique_present w this p andUpdate1 A).
      simpl. split; [exact A|]. intros N.
      apply (count_occ_In Nat.eq_dec) in A. unfold ptr in *. lia.
    - unfold w1. rewrite (AddTransformationUnique_absent w this p andUpdate1 Hp A).
      destruct (add_sort_update_frame w this p andUpdate1) as [L _]. simpl in L.
      rewrite L. pose proof (std_sort_perm (TransformationPredicate w)
        (push_back (m_Transformations (inspectables w this)) p)) as P.
      split.
      + apply (Permutation_in _ P). unfold push_back. apply in_or_app. right. now left.
      + intros _. apply (Permutation_count_occ Nat.eq_dec) with (x := p) in P.
        rewrite <- P. unfold push_back. rewrite count_occ_app.
        apply (count_occ_not_In Nat.eq_dec) in A. simpl.
        destruct (Nat.eq_dec p p); [|contradiction]. unfold ptr in *. lia. }
  destruct R as [R1 R2].
  pose proof (AddTransformationUnique_present w1 this p andUpdate2 R1) as S2.
  rewrite S2. repeat split; try assumption.
  intros A. unfold w1. now rewrite (AddTransformationUnique_present w this p andUpdate1 A).
Qed.

Lemma RemoveTransformation_absent w this p andUpdate :
  ~ In p (m_Transformations (inspectables w this)) ->
  RemoveTransformation T_ne this p andUpdate w = (Normal tt, w).
Proof.
  intros A. unfold RemoveTransformation. destruct (is_null p); [reflexivity|].
  unfold bind, self. apply std_find_end in A. now rewrite A.
Qed.

Lemma RemoveTransformation_present w this p andUpdate :
  p <> nullptr -> In p (m_Transformations (inspectables w this)) ->
  RemoveTransformation T_ne this p andUpdate w =
    when andUpdate (ForceUpdate T_ne this)
      (put this (with_Transformations
                   (remove_first p (m_Transformations (inspectables w this)))
                   (inspectables w this)) w).
Proof.
  intros H A. unfold RemoveTransformation, is_null.
  apply Nat.eqb_neq in H. rewrite H. unfold bind, self.
  rewrite (std_find_found _ _ A). simpl. unfold assign.
  now rewrite erase_std_find.
Qed.

(** C8. [RemoveTransformation] of a pointer that is not in the slot list
    returns normally and leaves the world as it was: cached value, trace and
    all.  Of a registered non-null pointer it takes out the first occurrence,
    and only then, if asked, recomputes. *)
Theorem RemoveTransformation_first_match w this p andUpdate :
  let i := inspectables w this in
  (~ In p (m_Transformations i) ->
   RemoveTransformation T_ne this p andUpdate w = (Normal tt, w))
  /\
  (p <> nullptr -> In p (m_Transformations i) ->
   exists l1 l2,
     m_Transformations i = l1 ++ p :: l2 /\ ~ In p l1
     /\ RemoveTransformation T_ne this p andUpdate w
        = when andUpdate (ForceUpdate T_ne this)
            (put this (with_Transformations (l1 ++ l2) i) w)).
Proof.
  intros i. split; [apply RemoveTransformation_absent|].
  intros H A. destruct (remove_first_split _ _ A) as (l1 & l2 & E & N & R).
  exists l1, l2. split; [exact E|]. split; [exact N|].
  rewrite (RemoveTransformation_present w this p andUpdate H A).
  fold i. now rewrite R.
Qed.

(** ** The order of the slot list *)

Lemma TransformationPredicate_swo w : StrictWeakOrder (TransformationPredicate w).
Proof.
  unfold TransformationPredicate. constructor.
  - intros a. rewrite Z.gtb_ltb. apply Z.ltb_irrefl.
  - intros a b c. rewrite !Z.gtb_ltb, !Z.ltb_lt. lia.
  - intros a b c. rewrite !Z.gtb_ltb, !Z.ltb_ge. lia.
Qed.

Lemma sorted_descending w (l : list ptr) :
  StronglySorted (fun a b => TransformationPredicate w b a = false) l -> descending w l.
Proof.
  unfold descending. induction 1 as [|a l S IH F]; constructor; [exact IH|].
  eapply Forall_impl; [|exact F]. intros b. unfold TransformationPredicate.
  rewrite Z.gtb_ltb, Z.ltb_ge. lia.
Qed.

Lemma descending_ext w w' (l : list ptr) :
  transformations w' = transformations w -> descending w l -> descending w' l.
Proof. unfold descending. now intros ->. Qed.

(** Whatever [std::sort] it is, an addition leaves the slot list in
    descending order of the priorities the transformations then have. *)
Lemma add_sort_update_descending w this p andUpdate :
  let w' := snd (add_sort_update T_ne this p andUpdate w) in
  descending w' (m_Transformations (inspectables w' this)).
Proof.
  destruct (add_sort_update_frame w this p andUpdate) as [L Et]. simpl in *.
  rewrite L. apply (descending_ext w _ _ Et), sorted_descending, std_sort_sorted.
  apply TransformationPredicate_swo.
Qed.

Lemma AddTransformation_descending w this p andUpdate :
  p <> nullptr ->
  let w' := snd (AddTransformation T_ne this p andUpdate w) in
  descending w' (m_Transformations (inspectables w' this)).
Proof.
  intros H. rewrite (AddTransformation_adds w this p andUpdate H).
  apply add_sort_update_descending.
Qed.

Lemma AddTransformationUnique_descending w this p andUpdate :
  p <> nullptr -> ~ In p (m_Transformations (inspectables w this)) ->
  let w' := snd (AddTransformationUnique T_ne this p andUpdate w) in
  descending w' (m_Transformations (inspectables w' this)).
Proof.
  intros H A. rewrite (AddTransformationUnique_absent w this p andUpdate H A).
  apply add_sort_update_descending.
Qed.

Lemma descending_remove_first w (l : list ptr) p :
  descending w l -> descending w (remove_first p l).
Proof.
  unfold descending. induction 1 as [|a l S IH F]; simpl; [constructor|].
  destruct (Nat.eqb a p); [exact S|]. constructor; [exact IH|].
  apply Forall_forall. intros b Hb. apply (proj1 (Forall_forall _ _) F).
  clear - Hb. induction l as [|x r IHr]; simpl in *; [contradiction|].
  destruct (Nat.eqb x p); [now right|]. destruct Hb as [->|Hb]; [now left|right; auto].
Qed.

(** A removal keeps a descending slot list descending. *)
Lemma RemoveTransformation_descending w this p andUpdate :
  let w' := snd (RemoveTransformation T_ne this p andUpdate w) in
  descending w (m_Transformations (inspectables w this)) ->
  descending w' (m_Transformations (inspectables w' this)).
Proof.
  intros w' D.
  destruct (in_dec Nat.eq_dec p (m_Transformations (inspectables w this))) as [A|A];
    [destruct (Nat.eq_dec p nullptr) as [N|N]|].
  - unfold w', RemoveTransformation, is_null. subst p. exact D.
  - unfold w'. rewrite (RemoveTransformation_present w this p andUpdate N A).
    set (w1 := put this _ w).
    assert (D1 : descending w1 (m_Transformations (inspectables w1 this))).
    { unfold w1. simpl. rewrite upd_same. simpl. now apply descending_remove_first. }
    destruct andUpdate; simpl; [|exact D1].
    destruct (ForceUpdate_frame w1 this) as (Et & _ & _ & Ei).
    rewrite Ei. simpl. now apply (descending_ext w1 _ _ Et).
  - unfold w'. now rewrite (RemoveTransformation_absent w this p andUpdate A).
Qed.

(** The sort enters an addition through the one list it returns. *)
Lemma AddTransformation_sort (s1 s2 : StdSort) w this p andUpdate :
  @std_sort s1 (TransformationPredicate w)
     (push_back (m_Transformations (inspectables w this)) p)
  = @std_sort s2 (TransformationPredicate w)
     (push_back (m_Transformations (inspectables w this)) p) ->
  @AddTransformation T T_ne s1 this p andUpdate w
  = @AddTransformation T T_ne s2 this p andUpdate w.
Proof.
  intros E. unfold AddTransformation. destruct (is_null p); [reflexivity|].
  unfold bind, assign, SortTransformations. simpl. rewrite !upd_same. simpl.
  change (TransformationPredicate (put this _ w)) with (TransformationPredicate w).
  now rewrite E.
Qed.

End Theory.

(** ** Lists the contract of [std::sort] determines *)

Lemma std_sort_one (sorter : StdSort) (comp : ptr -> ptr -> bool) (x : ptr) :
  std_sort comp [x] = [x].
Proof. apply Permutation_length_1_inv, std_sort_perm. Qed.

(** Two elements of which the second is ordered before the first. *)
Lemma std_sort_two (sorter : StdSort) (comp : ptr -> ptr -> bool) (a b : ptr) :
  StrictWeakOrder comp -> comp b a = true -> std_sort comp [a; b] = [b; a].
Proof.
  intros O C. pose proof (@std_sort_sorted sorter comp [a; b] O) as S.
  destruct (Permutation_length_2_inv (std_sort_perm comp [a; b])) as [E|E];
    rewrite E in *; [|reflexivity].
  inversion S as [|? ? _ F]; subst. inversion F as [|? ? H _]; subst. congruence.
Qed.

(** ** The README's example *)

Lemma example_A_first_addition (sorter : StdSort) :
  AddTransformation_set int_ne 1 11 times2 0 true true speed_world
  = @AddTransformation_set Z int_ne stable_sorter 1 11 times2 0 true true speed_world.
Proof.
  unfold AddTransformation_set, bind. apply AddTransformation_sort.
  set (w := put_transformation 11 _ speed_world).
  change (push_back (m_Transformations (inspectables w 1)) 11) with [11].
  now rewrite !std_sort_one.
Qed.

Lemma example_A_second_addition (sorter : StdSort) (priority : Z) :
  (0 < priority)%Z ->
  let w1 := snd (@AddTransformation_set Z int_ne stable_sorter
                   1 11 times2 0 true true speed_world) in
  AddTransformation_set int_ne 1 12 plus2 priority true true w1
  = @AddTransformation_set Z int_ne stable_sorter 1 12 plus2 priority true true w1.
Proof.
  intros H w1. unfold AddTransformation_set, bind. apply AddTransformation_sort.
  set (w := put_transformation 12 _ w1).
  change (push_back (m_Transformations (inspectables w 1)) 12) with [11; 12].
  assert (C : TransformationPredicate w 12 11 = true).
  { unfold TransformationPredicate, w. simpl. rewrite Z.gtb_ltb. now apply Z.ltb_lt. }
  now rewrite !std_sort_two by (apply TransformationPredicate_swo || exact C).
Qed.

(** C9. Identity 10; slot A (priority 0, multiply by 2) added with immediate
    update caches 20; slot B (priority 1, add 2) added with immediate update
    caches 24, B being applied before A: whatever [std::sort] is used. *)
Theorem example_A (sorter : StdSort) :
  let w1 := snd (AddTransformation_set int_ne 1 11 times2 0 true true speed_world) in
  let w2 := snd (AddTransformation_set int_ne 1 12 plus2 1 true true w1) in
  m_LastValue (inspectables speed_world 1) = 10%Z
  /\ m_LastValue (inspectables w1 1) = 20%Z
  /\ m_Transformations (inspectables w2 1) = [12; 11]
  /\ m_LastValue (inspectables w2 1) = 24%Z
  /\ m_LastValue (inspectables w2 1) <> 22%Z.
Proof.
  intros w1 w2. unfold w2, w1. rewrite example_A_first_addition.
  rewrite (example_A_second_addition sorter 1) by lia.
  vm_compute. repeat split. discriminate.
Qed.

(** C2, on the header's own example.  The README adds two transformations of
    priority 0, multiply by 2 and then add 2, and reports 22: the earlier
    addition applied first.  [std::sort] does not promise that.  With the
    insertion sort the slot list is in registration order and the value is
    22; with the sort that reverses equivalent elements, which meets the
    contract of [std::sort] as well, the later addition stands first and the
    value is 24. *)
Theorem equal_priorities_follow_the_sort :
  let add (s : StdSort) :=
    let w1 := snd (@AddTransformation_set Z int_ne s 1 11 times2 0 true true speed_world) in
    snd (@AddTransformation_set Z int_ne s 1 12 plus2 0 true true w1) in
  (m_Transformations (inspectables (add stable_sorter) 1) = [11; 12]
   /\ m_LastValue (inspectables (add stable_sorter) 1) = 22%Z)
  /\ (m_Transformations (inspectables (add reversing_sorter) 1) = [12; 11]
      /\ m_LastValue (inspectables (add reversing_sorter) 1) = 24%Z)
  /\ GetPriority (transformations (add reversing_sorter) 11)
     = GetPriority (transformations (add reversing_sorter) 12)
  /\ precedes (m_Transformations (inspectables (add reversing_sorter) 1)) 12 11.
Proof. vm_compute. repeat split. now exists [], [], []. Qed.

(** C5, at a call of [Set].  A wrapper holding nothing is given the
    inspectable at 1 and a function with a target, the parameter being at
    address 41.  The function is stored in the member, at 31, but the address
    registered with the inspectable is 41, the parameter's: the stored
    function is not registered, and the destructor, which removes the
    member's address, leaves the registration behind.  The identity-changed
    wrapper does the same. *)
Theorem Set_registers_its_parameter :
  let r := ScopedValueChanged_Set idle_listener 1 41 watcher speed_world in
  let s := {| m_Inspectable := 1; m_OnValueChanged := 31 |} in
  fst r = Normal s
  /\ functions (snd r) 31 = watcher
  /\ m_ValueChanged (inspectables (snd r) 1) = [21; 41]
  /\ fst (ContainsOnValueChanged 1 31 (snd r)) = Normal false
  /\ m_ValueChanged (inspectables (snd (ScopedValueChanged_delete s (snd r))) 1) = [21; 41]
  /\ m_IdentityChanged
       (inspectables (snd (ScopedIdentityChanged_Set idle_listener 1 41 watcher speed_world)) 1)
     = [41].
Proof. vm_compute. repeat split. Qed.

(** C3 fails where the function has no target: the call raises. *)
Lemma call_operator_untargeted_raises :
  call_operator untargeted 5%Z = Throws bad_function_call 5%Z
  /\ call_operator untargeted 5%Z <> Returns 5%Z.
Proof. split; [reflexivity|discriminate]. Qed.

(** C7 fails where [AddTransformation] has registered the pointer twice: the
    two unique additions change nothing, and the pointer stays registered
    twice. *)
Lemma AddTransformationUnique_keeps_duplicates :
  let w := snd (@AddTransformation Z int_ne stable_sorter 1 11 false
             (snd (@AddTransformation Z int_ne stable_sorter 1 11 false
                     (put_transformation 11 pill speed_world)))) in
  let w1 := snd (@AddTransformationUnique Z int_ne stable_sorter 1 11 true w) in
  let w2 := snd (@AddTransformationUnique Z int_ne stable_sorter 1 11 true w1) in
  m_Transformations (inspectables w 1) = [11; 11]
  /\ m_Transformations (inspectables w2 1) = [11; 11]
  /\ count_occ Nat.eq_dec (m_Transformations (inspectables w2 1)) 11 = 2.
Proof. vm_compute. repeat split. Qed.

(** C6 fails on [Inspectable<double>] with a NaN: the cached value stays the
    same NaN, and every recompute calls the listener, the second as the
    first. *)
Lemma ForceUpdate_of_nan_notifies_again :
  let w1 := snd (ForceUpdate double_ne 1 nan_world) in
  let w2 := snd (ForceUpdate double_ne 1 w1) in
  m_LastValue (inspectables w2 1) = m_LastValue (inspectables w1 1)
  /\ calls w2 = calls w1 ++
       [{| callee := 21; subject := 1;
           lastValue := PrimFloat.nan; newValue := PrimFloat.nan |}].
Proof. vm_compute. split; reflexivity. Qed.

(** ** The theorems at the README's example *)

(** C9 on the insertion sort. *)
Lemma example_A_witness :
  m_LastValue (inspectables speed_world 1) = 10%Z
  /\ m_LastValue (inspectables
        (snd (@AddTransformation_set Z int_ne stable_sorter 1 11 times2 0 true true
                speed_world)) 1) = 20%Z
  /\ m_Transformations (inspectables
        (snd (@AddTransformation_set Z int_ne stable_sorter 1 12 plus2 1 true true
           (snd (@AddTransformation_set Z int_ne stable_sorter 1 11 times2 0 true true
                   speed_world)))) 1) = [12; 11]
  /\ m_LastValue (inspectables
        (snd (@AddTransformation_set Z int_ne stable_sorter 1 12 plus2 1 true true
           (snd (@AddTransformation_set Z int_ne stable_sorter 1 11 times2 0 true true
                   speed_world)))) 1) = 24%Z
  /\ m_LastValue (inspectables
        (snd (@AddTransformation_set Z int_ne stable_sorter 1 12 plus2 1 true true
           (snd (@AddTransformation_set Z int_ne stable_sorter 1 11 times2 0 true true
                   speed_world)))) 1) <> 22%Z.
Proof. exact (example_A stable_sorter). Defined.

(** C1 on [pill_world]: the recompute caches 20 and calls the listener once,
    with (10, 20). *)
Lemma ForceUpdate_recomputes_and_notifies_witness :
  exists w',
    ForceUpdate int_ne 1 pill_world = (Normal tt, w')
    /\ inspectables w' 1 = with_LastValue 20%Z (inspectables pill_world 1)
    /\ calls w' = calls pill_world ++
         (if int_ne (m_LastValue (inspectables pill_world 1)) 20%Z
          then invocations (m_ValueChanged (inspectables pill_world 1)) 1
                 (m_LastValue (inspectables pill_world 1)) 20%Z
          else [])
    /\ transformations w' = transformations pill_world
    /\ functions w' = functions pill_world
    /\ (forall q, q <> 1 -> inspectables w' q = inspectables pill_world q).
Proof.
  apply (ForceUpdate_recomputes_and_notifies Z int_ne pill_world 1 20%Z).
  - reflexivity.
  - intros _. reflexivity.
Defined.

(** C3 on a transformation with a target and on one without. *)
Lemma call_operator_calls_m_Function_witness :
  call_operator pill 5%Z = Returns 10%Z
  /\ call_operator untargeted 5%Z = Throws bad_function_call 5%Z.
Proof.
  split.
  - apply (proj1 (call_operator_calls_m_Function Z pill 5%Z)
             (fun v => Returns (v * 2)%Z)).
    reflexivity.
  - apply (proj1 (proj2 (call_operator_calls_m_Function Z untargeted 5%Z))).
    reflexivity.
Defined.

(** C6 on [pill_world]: three more recomputes after the first. *)
Lemma ForceUpdate_repeated_witness :
  m_LastValue (inspectables
     (ForceUpdate_times int_ne 3 1 (snd (ForceUpdate int_ne 1 pill_world))) 1) = 20%Z
  /\ calls (ForceUpdate_times int_ne 3 1 (snd (ForceUpdate int_ne 1 pill_world)))
     = calls (snd (ForceUpdate int_ne 1 pill_world)).
Proof.
  destruct (ForceUpdate_repeated Z int_ne pill_world 1 3) as [V C].
  split; [exact V|]. apply C. reflexivity.
Defined.

(** C4 on [pill_world]: identity 10 set to 11 with a recompute. *)
Lemma SetIdentity_assigns_updates_notifies_witness :
  exists w',
    SetIdentity int_ne 1 11%Z true pill_world = (Normal tt, w')
    /\ inspectables w' 1
       = with_LastValue 22%Z (with_Identity 11%Z (inspectables pill_world 1))
    /\ calls w' = calls pill_world ++
         (if true && int_ne (m_LastValue (inspectables pill_world 1)) 22%Z
          then invocations (m_ValueChanged (inspectables pill_world 1)) 1
                 (m_LastValue (inspectables pill_world 1)) 22%Z
          else [])
         ++ invocations (m_IdentityChanged (inspectables pill_world 1)) 1
              (m_Identity (inspectables pill_world 1)) 11%Z.
Proof.
  apply (proj2 (SetIdentity_assigns_updates_notifies Z int_ne pill_world 1 11%Z true 22%Z)).
  - reflexivity.
  - intros _. reflexivity.
  - intros _ _. reflexivity.
  - reflexivity.
Defined.

(** C10 on [speed_world]: identity 10 set to 11 without a recompute. *)
Lemma SetIdentity_without_update_frame_witness :
  inspectables (snd (SetIdentity int_ne 1 11%Z false speed_world)) 1
    = with_Identity 11%Z (inspectables speed_world 1)
  /\ m_LastValue (inspectables (snd (SetIdentity int_ne 1 11%Z false speed_world)) 1) = 10%Z
  /\ GetValue int_ne 1 false (snd (SetIdentity int_ne 1 11%Z false speed_world))
     = (Normal 10%Z, snd (SetIdentity int_ne 1 11%Z false speed_world)).
Proof.
  destruct (SetIdentity_without_update_frame Z int_ne speed_world 1 11%Z)
    as (I & _ & _ & _ & _ & G); [reflexivity|].
  split; [exact I|]. split; [now rewrite I|exact G].
Defined.

(** C7 on [pill_world]: the transformation at 12 added twice. *)
Lemma AddTransformationUnique_twice_witness :
  @AddTransformationUnique Z int_ne stable_sorter 1 12 true
     (snd (@AddTransformationUnique Z int_ne stable_sorter 1 12 true pill_world))
  = (Normal 1, snd (@AddTransformationUnique Z int_ne stable_sorter 1 12 true pill_world))
  /\ count_occ Nat.eq_dec
       (m_Transformations
          (inspectables
             (snd (@AddTransformationUnique Z int_ne stable_sorter 1 12 true pill_world)) 1))
       12 = 1.
Proof.
  destruct (@AddTransformationUnique_twice Z int_ne stable_sorter pill_world 1 12 true true)
    as (S & _ & C & _); [discriminate|].
  split; [exact S|]. apply C. simpl. lia.
Defined.

(** C8 on [pill_world]: removing 12, never added, and removing 11. *)
Lemma RemoveTransformation_first_match_witness :
  RemoveTransformation int_ne 1 12 true pill_world = (Normal tt, pill_world)
  /\ exists l1 l2,
       m_Transformations (inspectables pill_world 1) = l1 ++ 11 :: l2 /\ ~ In 11 l1
       /\ RemoveTransformation int_ne 1 11 true pill_world
          = when true (ForceUpdate int_ne 1)
              (put 1 (with_Transformations (l1 ++ l2) (inspectables pill_world 1))
                 pill_world).
Proof.
  split.
  - apply (proj1 (RemoveTransformation_first_match Z int_ne pill_world 1 12 true)).
    simpl. intros [F|[]]. discriminate F.
  - apply (proj2 (RemoveTransformation_first_match Z int_ne pill_world 1 11 true)).
    + discriminate.
    + simpl. now left.
Defined.

(** * Further properties of the header *)

Section More.

Variable T : Type.
Variable T_ne : T -> T -> bool.
Context {sorter : StdSort}.

Implicit Types (w : World T) (this p f : ptr) (v : T).

(** ** Exceptions *)

Lemma apply_transformations_app w (l1 l2 : list ptr) v :
  apply_transformations w (l1 ++ l2) v
  = match apply_transformations w l1 v with
    | Normal v1 => apply_transformations w l2 v1
    | Raised e => Raised e
    end.
Proof.
  revert v. induction l1 as [|t r IH]; intros v; simpl; [reflexivity|].
  destruct (IsEnabled (transformations w t) && _); [|apply IH].
  destruct (call_operator (transformations w t) v); [apply IH|reflexivity].
Qed.

(** X1. A transformation that raises in the middle of the walk: the
    exception leaves [ForceUpdate], the cached value is the one of before, no
    listener is called, nothing of the world changes. *)
Theorem ForceUpdate_raising_transformation w this p (l1 l2 : list ptr) v1 v' e target :
  m_Transformations (inspectables w this) = l1 ++ p :: l2 ->
  chain w (filter (applied w) l1) (m_Identity (inspectables w this)) = Some v1 ->
  m_Enabled (transformations w p) = true ->
  m_Function (transformations w p) = Some target ->
  target v1 = Throws e v' ->
  ForceUpdate T_ne this w = (Raised e, w).
Proof.
  intros L C En F R. apply ForceUpdate_raised_in_walk.
  rewrite L, apply_transformations_app.
  apply apply_transformations_chain in C. rewrite C. simpl.
  unfold IsEnabled, GetTransformFunc, call_operator. now rewrite En, F, R.
Qed.

(** X2. [SetIdentity] with a recompute that raises in the walk: the identity
    has been assigned, the cached value has not, and the identity-changed
    listeners are not called; the exception leaves [SetIdentity]. *)
Theorem SetIdentity_raising_recompute w this value e :
  let i := inspectables w this in
  T_ne (m_Identity i) value = true ->
  apply_transformations w (m_Transformations i) value = Raised e ->
  SetIdentity T_ne this value true w = (Raised e, put this (with_Identity value i) w).
Proof.
  intros i E R.
  assert (F : ForceUpdate T_ne this (put this (with_Identity value i) w)
              = (Raised e, put this (with_Identity value i) w)).
  { apply ForceUpdate_raised_in_walk. simpl. rewrite upd_same. simpl.
    rewrite <- R. now apply apply_transformations_ext. }
  unfold SetIdentity, bind, self. fold i. rewrite E. unfold assign, when.
  change (put this (with_Identity value (inspectables w this)) w)
    with (put this (with_Identity value i) w).
  now rewrite F.
Qed.

(** Notifying a list whose listeners return up to one that raises. *)
Lemma notify_raising (fs1 fs2 : list ptr) f this (a b : T) w target e :
  quiet w fs1 this a b = true ->
  functions w f = Some target -> target this a b = Some e ->
  notify (fs1 ++ f :: fs2) this a b w
  = (Raised e, record_calls (invocations (fs1 ++ [f]) this a b) w).
Proof.
  revert w. induction fs1 as [|g r IH]; intros w Q F R; simpl.
  - unfold bind, invoke. now rewrite F, R.
  - simpl in Q. apply andb_true_iff in Q. destruct Q as [Qg Qr].
    unfold bind at 1. unfold invoke at 1.
    destruct (functions w g) as [tg|]; [|discriminate].
    destruct (tg this a b); [discriminate|].
    rewrite IH; [now rewrite record_calls_app|exact Qr|exact F|exact R].
Qed.

(** Notifying a list whose listeners return up to one that has no target. *)
Lemma notify_untargeted (fs1 fs2 : list ptr) f this (a b : T) w :
  quiet w fs1 this a b = true ->
  functions w f = None ->
  notify (fs1 ++ f :: fs2) this a b w
  = (Raised bad_function_call, record_calls (invocations fs1 this a b) w).
Proof.
  revert w. induction fs1 as [|g r IH]; intros w Q F; simpl.
  - unfold bind, invoke. rewrite F. now rewrite record_calls_nil.
  - simpl in Q. apply andb_true_iff in Q. destruct Q as [Qg Qr].
    unfold bind at 1. unfold invoke at 1.
    destruct (functions w g) as [tg|]; [|discriminate].
    destruct (tg this a b); [discriminate|].
    rewrite IH; [now rewrite record_calls_app|exact Qr|exact F].
Qed.

Lemma ForceUpdate_notifying w this v :
  transformed w this = Some v ->
  T_ne (m_LastValue (inspectables w this)) v = true ->
  ForceUpdate T_ne this w
  = notify (m_ValueChanged (inspectables w this)) this (m_LastValue (inspectables w this)) v
      (put this (with_LastValue v (inspectables w this)) w).
Proof.
  intros Hv N. unfold transformed in Hv. apply apply_transformations_chain in Hv.
  unfold ForceUpdate, bind, self. rewrite Hv. unfold assign, when. rewrite N.
  simpl. now rewrite upd_same.
Qed.

(** X3. A value-changed listener that raises: the cached value is already
    the new one, the listeners before it and it have been called, those
    after it have not, and the exception leaves [ForceUpdate]. *)
Theorem ForceUpdate_raising_listener w this v (fs1 fs2 : list ptr) f target e :
  let i := inspectables w this in
  transformed w this = Some v ->
  T_ne (m_LastValue i) v = true ->
  m_ValueChanged i = fs1 ++ f :: fs2 ->
  quiet w fs1 this (m_LastValue i) v = true ->
  functions w f = Some target -> target this (m_LastValue i) v = Some e ->
  ForceUpdate T_ne this w
  = (Raised e,
     record_calls (invocations (fs1 ++ [f]) this (m_LastValue i) v)
       (put this (with_LastValue v i) w)).
Proof.
  intros i Hv N L Q F R. rewrite (ForceUpdate_notifying w this v Hv N). fold i.
  rewrite L. now apply notify_raising with (target := target).
Qed.

(** X4. Whatever the functions do, [ForceUpdate] calls value-changed
    listeners only: what it adds to the trace is a front part of the calls
    [(this, previous, new)] of the value-changed list, in its order, and
    nothing when the walk raises or the value is not unequal to the previous
    one. *)
Theorem ForceUpdate_calls_value_listeners_only w this :
  let i := inspectables w this in
  let w' := snd (ForceUpdate T_ne this w) in
  match walk w this with
  | Raised _ => w' = w
  | Normal v =>
      exists cs rest,
        calls w' = calls w ++ cs
        /\ (if T_ne (m_LastValue i) v
            then invocations (m_ValueChanged i) this (m_LastValue i) v
            else []) = cs ++ rest
  end.
Proof.
  intros i w'. unfold w', walk. fold i.
  destruct (apply_transformations w (m_Transformations i) (m_Identity i)) as [v|e] eqn:E.
  - unfold ForceUpdate, bind, self. fold i. rewrite E. unfold assign, when.
    destruct (T_ne (m_LastValue i) v).
    + simpl. rewrite upd_same. simpl.
      destruct (notify_trace T (m_ValueChanged i) this (m_LastValue i) v
                  (put this (with_LastValue v i) w)) as (cs & rest & Hs & Hp).
      fold i. rewrite Hs. simpl. now exists cs, rest.
    + simpl. exists [], []. now rewrite app_nil_r.
  - now rewrite (ForceUpdate_raised_in_walk T T_ne w this e E).
Qed.

(** ** The slot list *)

(** What an addition leaves of the inspectable: the list sorted, the cached
    value possibly recomputed, the rest as it was. *)
Lemma add_sort_update_inspectable w this p andUpdate :
  let w' := snd (add_sort_update T_ne this p andUpdate w) in
  inspectables w' this
  = with_LastValue (m_LastValue (inspectables w' this))
      (with_Transformations
         (std_sort (TransformationPredicate w)
            (push_back (m_Transformations (inspectables w this)) p))
         (inspectables w this))
  /\ transformations w' = transformations w
  /\ functions w' = functions w
  /\ (forall q, q <> this -> inspectables w' q = inspectables w q).
Proof.
  unfold add_sort_update, bind, assign, SortTransformations. simpl.
  repeat rewrite upd_same. simpl.
  set (w2 := put this _ (put this _ w)).
  assert (I2 : inspectables w2 this
               = with_Transformations
                   (std_sort (TransformationPredicate w)
                      (push_back (m_Transformations (inspectables w this)) p))
                   (inspectables w this))
    by (unfold w2; simpl; now rewrite upd_same).
  assert (O2 : forall q, q <> this -> inspectables w2 q = inspectables w q)
    by (intros q Hq; unfold w2; simpl; now rewrite !upd_other).
  destruct andUpdate; simpl.
  - pose proof (ForceUpdate_frame T T_ne w2 this) as Fr. cbv zeta in Fr.
    destruct Fr as (Et & Ef & Eo & Ei).
    assert (S3 : snd (let (r, w') := ForceUpdate T_ne this w2 in
                      match r with
                      | Normal _ => ret this w'
                      | Raised e => (Raised e, w')
                      end) = snd (ForceUpdate T_ne this w2))
      by (destruct (ForceUpdate T_ne this w2) as [[[]|e] w4]; reflexivity).
    rewrite S3.
    split; [rewrite Ei at 1; now rewrite I2|].
    split; [exact Et|]. split; [exact Ef|].
    intros q Hq. rewrite (Eo q Hq). now apply O2.
  - assert (E0 : inspectables w2 this
                 = with_LastValue (m_LastValue (inspectables w2 this))
                     (with_Transformations
                        (std_sort (TransformationPredicate w)
                           (push_back (m_Transformations (inspectables w this)) p))
                        (inspectables w this)))
      by (now rewrite I2).
    split; [exact E0|]. repeat split. exact O2.
Qed.

(** What a removal leaves of the inspectable. *)
Lemma RemoveTransformation_inspectable w this p andUpdate :
  let w' := snd (RemoveTransformation T_ne this p andUpdate w) in
  inspectables w' this
  = with_LastValue (m_LastValue (inspectables w' this))
      (with_Transformations
         (if is_null p then m_Transformations (inspectables w this)
          else remove_first p (m_Transformations (inspectables w this)))
         (inspectables w this))
  /\ transformations w' = transformations w
  /\ functions w' = functions w
  /\ (forall q, q <> this -> inspectables w' q = inspectables w q).
Proof.
  assert (Same : forall l, l = m_Transformations (inspectables w this) ->
            inspectables w this
            = with_LastValue (m_LastValue (inspectables w this))
                (with_Transformations l (inspectables w this)))
    by (intros l ->; now destruct (inspectables w this)).
  destruct (is_null p) eqn:N.
  - unfold RemoveTransformation. rewrite N. simpl. repeat split. now apply Same.
  - assert (Hp : p <> nullptr) by (now apply Nat.eqb_neq).
    destruct (in_dec Nat.eq_dec p (m_Transformations (inspectables w this))) as [A|A].
    + rewrite (RemoveTransformation_present T T_ne w this p andUpdate Hp A).
      set (w1 := put this _ w).
      assert (I1 : inspectables w1 this
                   = with_Transformations
                       (remove_first p (m_Transformations (inspectables w this)))
                       (inspectables w this))
        by (unfold w1; simpl; now rewrite upd_same).
      assert (O1 : forall q, q <> this -> inspectables w1 q = inspectables w q)
        by (intros q Hq; unfold w1; simpl; now rewrite upd_other).
      destruct andUpdate; simpl.
      * pose proof (ForceUpdate_frame T T_ne w1 this) as Fr. cbv zeta in Fr.
        destruct Fr as (Et & Ef & Eo & Ei).
        split; [rewrite Ei at 1; now rewrite I1|].
        split; [exact Et|]. split; [exact Ef|].
        intros q Hq. rewrite (Eo q Hq). now apply O1.
      * assert (E0 : inspectables w1 this
                     = with_LastValue (m_LastValue (inspectables w1 this))
                         (with_Transformations
                            (remove_first p (m_Transformations (inspectables w this)))
                            (inspectables w this)))
          by (now rewrite I1).
        split; [exact E0|]. repeat split. exact O1.
    + rewrite (RemoveTransformation_absent T T_ne w this p andUpdate A). simpl.
      repeat split. apply Same. now apply remove_first_absent.
Qed.

Lemma remove_first_incl (l : list ptr) p q : In q (remove_first p l) -> In q l.
Proof.
  induction l as [|x r IH]; simpl; [tauto|].
  destruct (Nat.eqb x p); [now right|]. intros [->|H]; [now left|right; auto].
Qed.

(** [std::find] against [end()] is membership. *)
Lemma ContainsTransformation_membership w this p :
  ContainsTransformation this p w
  = (Normal (negb (is_null p)
             && if in_dec Nat.eq_dec p (m_Transformations (inspectables w this))
                then true else false), w).
Proof.
  unfold ContainsTransformation. destruct (is_null p); [reflexivity|].
  unfold bind, self, ret. simpl.
  destruct (in_dec Nat.eq_dec p (m_Transformations (inspectables w this))) as [A|A].
  - now rewrite (std_find_found _ _ A).
  - apply std_find_end in A. now rewrite A.
Qed.

(** X5. The slot list never comes to hold a null pointer: none of
    [AddTransformation], [AddTransformationUnique] and [RemoveTransformation]
    puts one in, whatever pointer it is given. *)
Theorem slot_list_never_gains_nullptr w this p andUpdate :
  ~ In nullptr (m_Transformations (inspectables w this)) ->
  ~ In nullptr (m_Transformations
                  (inspectables (snd (AddTransformation T_ne this p andUpdate w)) this))
  /\ ~ In nullptr (m_Transformations
                     (inspectables (snd (AddTransformationUnique T_ne this p andUpdate w)) this))
  /\ ~ In nullptr (m_Transformations
                     (inspectables (snd (RemoveTransformation T_ne this p andUpdate w)) this)).
Proof.
  intros H.
  assert (Added : p <> nullptr ->
            ~ In nullptr (m_Transformations
                            (inspectables (snd (add_sort_update T_ne this p andUpdate w)) this))).
  { intros Hp. destruct (add_sort_update_frame T T_ne w this p andUpdate) as [L _].
    simpl in L. rewrite L. intros F.
    apply (Permutation_in _ (Permutation_sym (std_sort_perm _ _))) in F.
    unfold push_back in F. apply in_app_or in F. destruct F as [F|[F|[]]]; auto. }
  destruct (Nat.eq_dec p nullptr) as [E|Hp].
  - subst p. unfold AddTransformation, AddTransformationUnique, RemoveTransformation.
    simpl. now repeat split.
  - split; [|split].
    + rewrite (AddTransformation_adds T T_ne w this p andUpdate Hp). now apply Added.
    + destruct (in_dec Nat.eq_dec p (m_Transformations (inspectables w this))) as [A|A].
      * now rewrite (AddTransformationUnique_present T T_ne w this p andUpdate A).
      * rewrite (AddTransformationUnique_absent T T_ne w this p andUpdate Hp A).
        now apply Added.
    + destruct (RemoveTransformation_inspectable w this p andUpdate) as (I & _).
      simpl in I. rewrite I. simpl. apply Nat.eqb_neq in Hp. unfold is_null. rewrite Hp.
      intros F. apply H. now apply remove_first_incl in F.
Qed.

(** X6. [AddTransformation] of a non-null pointer, whatever [std::sort] is
    used: the new slot list is a rearrangement of the old one with the
    pointer added once more (a pointer already there is there twice), no
    transformation object is touched, and [ContainsTransformation] then
    answers true. *)
Theorem AddTransformation_registers w this p andUpdate :
  p <> nullptr ->
  let w' := snd (AddTransformation T_ne this p andUpdate w) in
  Permutation (p :: m_Transformations (inspectables w this))
    (m_Transformations (inspectables w' this))
  /\ count_occ Nat.eq_dec (m_Transformations (inspectables w' this)) p
     = S (count_occ Nat.eq_dec (m_Transformations (inspectables w this)) p)
  /\ transformations w' = transformations w
  /\ ContainsTransformation this p w' = (Normal true, w').
Proof.
  intros Hp w'. unfold w'. rewrite (AddTransformation_adds T T_ne w this p andUpdate Hp).
  destruct (add_sort_update_frame T T_ne w this p andUpdate) as [L Et]. simpl in L, Et.
  assert (P : Permutation (p :: m_Transformations (inspectables w this))
                (m_Transformations
                   (inspectables (snd (add_sort_update T_ne this p andUpdate w)) this))).
  { rewrite L. eapply perm_trans; [|apply std_sort_perm].
    unfold push_back. apply Permutation_cons_append. }
  split; [exact P|]. split; [|split; [exact Et|]].
  - apply (Permutation_count_occ Nat.eq_dec) with (x := p) in P.
    rewrite <- P. simpl. destruct (Nat.eq_dec p p); [reflexivity|contradiction].
  - rewrite ContainsTransformation_membership.
    apply Nat.eqb_neq in Hp. unfold is_null. rewrite Hp. simpl.
    destruct (in_dec Nat.eq_dec p _) as [A|A]; [reflexivity|].
    exfalso. apply A. apply (Permutation_in _ P). now left.
Qed.


(** ** Adding and then removing *)

Lemma remove_first_perm (l : list ptr) p :
  In p l -> Permutation (p :: remove_first p l) l.
Proof.
  induction l as [|x r IH]; simpl; [contradiction|].
  destruct (Nat.eqb x p) eqn:E.
  - apply Nat.eqb_eq in E. now subst x.
  - apply Nat.eqb_neq in E. intros [F|F]; [contradiction|].
    apply perm_trans with (x :: p :: remove_first p r); [apply perm_swap|].
    now apply perm_skip, IH.
Qed.

(** A list in strictly descending order has one descending rearrangement:
    itself. *)
Lemma descending_rearrangement_unique w (l l2 : list ptr) :
  strictly_descending w l -> descending w l2 -> Permutation l l2 -> l2 = l.
Proof.
  unfold strictly_descending, descending. intros S. revert l2.
  induction S as [|a r Sr IH Fa]; intros l2 D P.
  - now apply Permutation_nil.
  - destruct l2 as [|b r2]; [apply Permutation_sym, Permutation_nil in P; discriminate|].
    inversion D as [|? ? Dr Fb]; subst.
    assert (E : b = a).
    { assert (Hb : In b (a :: r)) by (apply (Permutation_in _ (Permutation_sym P)); now left).
      destruct Hb as [Hb|Hb]; [now symmetry|]. exfalso.
      pose proof (proj1 (Forall_forall _ _) Fa b Hb) as Lt.
      assert (Ha : In a (b :: r2)) by (apply (Permutation_in _ P); now left).
      cbv beta in Lt. destruct Ha as [Ha|Ha]; [subst; lia|].
      pose proof (proj1 (Forall_forall _ _) Fb a Ha) as Ge. cbv beta in Ge. lia. }
    subst b. f_equal. apply IH; [exact Dr|]. now apply Permutation_cons_inv with (a := a).
Qed.

(** A pointer appended to a strictly descending list, the list sorted and the
    pointer taken out again: the list is back, whatever [std::sort] is used. *)
Lemma sort_then_remove_first w (l : list ptr) p :
  ~ In p l -> strictly_descending w l ->
  remove_first p (std_sort (TransformationPredicate w) (push_back l p)) = l.
Proof.
  intros A S. set (s := std_sort (TransformationPredicate w) (push_back l p)).
  assert (P : Permutation (push_back l p) s) by apply std_sort_perm.
  assert (I : In p s).
  { apply (Permutation_in _ P). unfold push_back. apply in_or_app. right. now left. }
  apply (descending_rearrangement_unique w); [exact S| |].
  - apply descending_remove_first, sorted_descending, std_sort_sorted.
    apply TransformationPredicate_swo.
  - apply Permutation_cons_inv with (a := p).
    apply perm_trans with s; [|apply Permutation_sym, remove_first_perm, I].
    apply perm_trans with (push_back l p); [apply Permutation_cons_append|exact P].
Qed.

Lemma transformed_walk w this v :
  transformed w this = Some v <-> walk w this = Normal v.
Proof. apply apply_transformations_chain. Qed.

(** A recompute whose walk returns caches the walk's value, whatever the
    listeners do. *)
Lemma ForceUpdate_caches w this v :
  walk w this = Normal v ->
  m_LastValue (inspectables (snd (ForceUpdate T_ne this w)) this) = v.
Proof.
  intros W. destruct (ForceUpdate_shape T T_ne w this) as [(e & W' & _)|(v' & cs & W' & E & _)].
  - rewrite W in W'. discriminate.
  - rewrite W in W'. injection W' as <-. rewrite E. simpl. now rewrite upd_same.
Qed.

(** Adding an unregistered pointer to a strictly descending slot list and
    removing it with a recompute. *)
Lemma add_then_remove_restores w this p (andUpdate : bool) v :
  let l := m_Transformations (inspectables w this) in
  let w1 := snd (AddTransformation T_ne this p andUpdate w) in
  let w2 := snd (RemoveTransformation T_ne this p true w1) in
  p <> nullptr -> ~ In p l -> strictly_descending w l ->
  transformed w this = Some v ->
  m_Transformations (inspectables w2 this) = l
  /\ m_LastValue (inspectables w2 this) = v
  /\ transformations w2 = transformations w.
Proof.
  intros l w1 w2 Hp A S Hv.
  pose proof (add_sort_update_inspectable w this p andUpdate) as Fa. cbv zeta in Fa.
  rewrite <- (AddTransformation_adds T T_ne w this p andUpdate Hp) in Fa. fold w1 in Fa.
  destruct Fa as (I1 & T1 & _).
  assert (L1 : remove_first p (m_Transformations (inspectables w1 this)) = l).
  { rewrite I1. simpl. now apply sort_then_remove_first. }
  assert (In1 : In p (m_Transformations (inspectables w1 this))).
  { rewrite I1. simpl. apply (Permutation_in _ (std_sort_perm _ _)).
    unfold push_back. apply in_or_app. right. now left. }
  assert (R : w2 = snd (ForceUpdate T_ne this
                (put this (with_Transformations l (inspectables w1 this)) w1))).
  { unfold w2. rewrite (RemoveTransformation_present T T_ne w1 this p true Hp In1).
    now rewrite L1. }
  set (wa := put this (with_Transformations l (inspectables w1 this)) w1) in R.
  assert (Ia : inspectables wa this = with_Transformations l (inspectables w1 this))
    by (unfold wa; simpl; apply upd_same).
  assert (Wa : walk wa this = Normal v).
  { apply transformed_walk in Hv. rewrite <- Hv. unfold walk. rewrite Ia. simpl.
    rewrite I1. simpl. apply apply_transformations_ext. unfold wa. simpl. exact T1. }
  pose proof (ForceUpdate_frame T T_ne wa this) as Fr. cbv zeta in Fr. rewrite <- R in Fr.
  destruct Fr as (T2 & _ & _ & I2).
  split; [rewrite I2, Ia; reflexivity|]. split.
  - rewrite R. now apply ForceUpdate_caches.
  - rewrite T2. unfold wa. simpl. exact T1.
Qed.

(** X8. A non-null pointer that is not registered, added to a slot list
    whose priorities are strictly descending and then removed: the slot list
    is the one of before, for every [std::sort]; the removal being asked to
    recompute, the cached value is the value a recompute would have given
    before the addition; and [ContainsTransformation] answers false. *)
Theorem AddTransformation_then_RemoveTransformation w this p (andUpdate : bool) v :
  let l := m_Transformations (inspectables w this) in
  let w1 := snd (AddTransformation T_ne this p andUpdate w) in
  let w2 := snd (RemoveTransformation T_ne this p true w1) in
  p <> nullptr -> ~ In p l -> strictly_descending w l ->
  transformed w this = Some v ->
  m_Transformations (inspectables w2 this) = l
  /\ m_LastValue (inspectables w2 this) = v
  /\ ContainsTransformation this p w2 = (Normal false, w2).
Proof.
  intros l w1 w2 Hp A S Hv.
  destruct (add_then_remove_restores w this p andUpdate v Hp A S Hv) as (L2 & V2 & _).
  fold w1 w2 in L2, V2. split; [exact L2|]. split; [exact V2|].
  rewrite ContainsTransformation_membership. rewrite L2.
  destruct (in_dec Nat.eq_dec p (m_Transformations (inspectables w this)));
    [contradiction|]. now rewrite andb_false_r.
Qed.

(** ** The listener lists *)

Lemma remove_first_push_back (l : list ptr) f :
  ~ In f l -> remove_first f (push_back l f) = l.
Proof.
  unfold push_back. induction l as [|x r IH]; simpl; intros A.
  - now rewrite Nat.eqb_refl.
  - destruct (Nat.eqb x f) eqn:E.
    + apply Nat.eqb_eq in E. exfalso. apply A. now left.
    + f_equal. apply IH. intros F. apply A. now right.
Qed.

Lemma std_find_push_back (l : list ptr) f :
  Nat.eqb (std_find (push_back l f) f) (length (push_back l f)) = false.
Proof. apply std_find_found. unfold push_back. apply in_or_app. right. now left. Qed.

(** X9. A null pointer, or a pointer to a function without a target, is
    dropped by each of the four adding functions: the inspectable is returned
    and nothing is registered or changed. *)
Theorem listeners_reject_null_and_empty w this f :
  is_null f = true \/ functions w f = None ->
  AddOnValueChanged this f w = (Normal this, w)
  /\ AddOnValueChangedUnique this f w = (Normal this, w)
  /\ AddOnIdentityChanged this f w = (Normal this, w)
  /\ AddOnIdentityChangedUnique this f w = (Normal this, w).
Proof.
  intros H.
  assert (N : negb (is_null f) && has_target (functions w f) = false).
  { destruct H as [H|H]; rewrite H; [reflexivity|apply andb_false_r]. }
  unfold AddOnValueChanged, AddOnValueChangedUnique, AddOnIdentityChanged,
    AddOnIdentityChangedUnique, bind, nonnull_with_target.
  rewrite N. now repeat split.
Qed.

(** X10. The unique additions are idempotent: a second call with the same
    pointer returns with the world as the first call left it; and a pointer
    with a target that was not registered is appended at the end of its
    list, behind the listeners registered before. *)
Theorem AddOnChangedUnique_twice w this f :
  let wv := snd (AddOnValueChangedUnique this f w) in
  let wi := snd (AddOnIdentityChangedUnique this f w) in
  AddOnValueChangedUnique this f wv = (Normal this, wv)
  /\ AddOnIdentityChangedUnique this f wi = (Normal this, wi)
  /\ (is_null f = false -> functions w f <> None ->
      (~ In f (m_ValueChanged (inspectables w this)) ->
       m_ValueChanged (inspectables wv this)
       = m_ValueChanged (inspectables w this) ++ [f])
      /\ (~ In f (m_IdentityChanged (inspectables w this)) ->
          m_IdentityChanged (inspectables wi this)
          = m_IdentityChanged (inspectables w this) ++ [f])).
Proof.
  intros wv wi. unfold wv, wi.
  unfold AddOnValueChangedUnique, AddOnIdentityChangedUnique, bind, nonnull_with_target,
    self, when, assign, ret.
  destruct (negb (is_null f) && has_target (functions w f)) eqn:N; simpl.
  - apply andb_true_iff in N. destruct N as [N1 N2].
    assert (V : forall l, (if Nat.eqb (std_find l f) (length l) then true else false)
                          = if in_dec Nat.eq_dec f l then false else true).
    { intros l. destruct (in_dec Nat.eq_dec f l) as [A|A];
        [now rewrite (std_find_found _ _ A)|apply std_find_end in A; now rewrite A]. }
    split; [|split].
    + destruct (Nat.eqb (std_find (m_ValueChanged (inspectables w this)) f) _) eqn:E; simpl.
      * rewrite N1, N2. simpl. rewrite upd_same. simpl. now rewrite std_find_push_back.
      * rewrite N1, N2. simpl. now rewrite E.
    + destruct (Nat.eqb (std_find (m_IdentityChanged (inspectables w this)) f) _) eqn:E; simpl.
      * rewrite N1, N2. simpl. rewrite upd_same. simpl. now rewrite std_find_push_back.
      * rewrite N1, N2. simpl. now rewrite E.
    + intros _ _. split; intros A; apply std_find_end in A; rewrite A; simpl;
        now rewrite upd_same.
  - rewrite N. simpl. split; [reflexivity|]. split; [reflexivity|].
    intros Hn Hf. exfalso. rewrite Hn in N. simpl in N.
    destruct (functions w f); [discriminate|now apply Hf].
Qed.

(** X11. A registered listener whose function has since lost its target
    cannot be taken out: [RemoveOnValueChanged] leaves the list as it is and
    [ContainsOnValueChanged] answers false, though the pointer is in the
    list; and the next recompute that changes the value caches the new value,
    calls the listeners before it and raises [std::bad_function_call]. *)
Theorem listener_without_target_stays w this f (fs1 fs2 : list ptr) v :
  let i := inspectables w this in
  m_ValueChanged i = fs1 ++ f :: fs2 ->
  functions w f = None ->
  RemoveOnValueChanged this f w = (Normal tt, w)
  /\ ContainsOnValueChanged this f w = (Normal false, w)
  /\ (transformed w this = Some v -> T_ne (m_LastValue i) v = true ->
      quiet w fs1 this (m_LastValue i) v = true ->
      ForceUpdate T_ne this w
      = (Raised bad_function_call,
         record_calls (invocations fs1 this (m_LastValue i) v)
           (put this (with_LastValue v i) w))).
Proof.
  intros i L F. split; [|split].
  - unfold RemoveOnValueChanged, bind, nonnull_with_target. rewrite F.
    now rewrite andb_false_r.
  - unfold ContainsOnValueChanged, bind, nonnull_with_target. rewrite F.
    now rewrite andb_false_r.
  - intros Hv N Q. rewrite (ForceUpdate_notifying w this v Hv N). fold i. rewrite L.
    now apply notify_untargeted.
Qed.

Lemma AddOnValueChanged_appends w this f :
  is_null f = false -> functions w f <> None ->
  AddOnValueChanged this f w
  = (Normal this,
     put this (with_ValueChanged (push_back (m_ValueChanged (inspectables w this)) f)
                 (inspectables w this)) w).
Proof.
  intros N F. unfold AddOnValueChanged, bind, nonnull_with_target. rewrite N.
  destruct (functions w f); [reflexivity|contradiction].
Qed.

Lemma AddOnIdentityChanged_appends w this f :
  is_null f = false -> functions w f <> None ->
  AddOnIdentityChanged this f w
  = (Normal this,
     put this (with_IdentityChanged (push_back (m_IdentityChanged (inspectables w this)) f)
                 (inspectables w this)) w).
Proof.
  intros N F. unfold AddOnIdentityChanged, bind, nonnull_with_target. rewrite N.
  destruct (functions w f); [reflexivity|contradiction].
Qed.

Lemma RemoveOnValueChanged_removes w this f :
  is_null f = false -> functions w f <> None ->
  In f (m_ValueChanged (inspectables w this)) ->
  RemoveOnValueChanged this f w
  = (Normal tt,
     put this (with_ValueChanged (remove_first f (m_ValueChanged (inspectables w this)))
                 (inspectables w this)) w).
Proof.
  intros N F A. unfold RemoveOnValueChanged, bind, nonnull_with_target. rewrite N.
  destruct (functions w f); [|contradiction].
  unfold self, when, assign. cbn [negb andb has_target].
  rewrite (std_find_found _ _ A). cbn [negb]. now rewrite erase_std_find.
Qed.

Lemma RemoveOnIdentityChanged_removes w this f :
  is_null f = false -> functions w f <> None ->
  In f (m_IdentityChanged (inspectables w this)) ->
  RemoveOnIdentityChanged this f w
  = (Normal tt,
     put this (with_IdentityChanged
                 (remove_first f (m_IdentityChanged (inspectables w this)))
                 (inspectables w this)) w).
Proof.
  intros N F A. unfold RemoveOnIdentityChanged, bind, nonnull_with_target. rewrite N.
  destruct (functions w f); [|contradiction].
  unfold self, when, assign. cbn [negb andb has_target].
  rewrite (std_find_found _ _ A). cbn [negb]. now rewrite erase_std_find.
Qed.

Lemma upd_upd_back (X : Type) (h : ptr -> X) this (x : X) q :
  upd (upd h this x) this (h this) q = h q.
Proof.
  unfold upd. destruct (Nat.eqb q this) eqn:E; [|reflexivity].
  apply Nat.eqb_eq in E. now subst q.
Qed.

(** An addition to a list that did not hold the pointer, undone by the
    removal: every inspectable is as before. *)
Lemma Add_Remove_OnValueChanged w this f :
  is_null f = false -> functions w f <> None ->
  ~ In f (m_ValueChanged (inspectables w this)) ->
  let w2 := snd (RemoveOnValueChanged this f (snd (AddOnValueChanged this f w))) in
  fst (RemoveOnValueChanged this f (snd (AddOnValueChanged this f w))) = Normal tt
  /\ (forall q, inspectables w2 q = inspectables w q)
  /\ transformations w2 = transformations w /\ functions w2 = functions w
  /\ calls w2 = calls w.
Proof.
  intros N F A. rewrite (AddOnValueChanged_appends w this f N F). cbn [snd].
  set (w1 := put this _ w).
  assert (I1 : inspectables w1 this
               = with_ValueChanged (push_back (m_ValueChanged (inspectables w this)) f)
                   (inspectables w this)) by (unfold w1; simpl; apply upd_same).
  rewrite (RemoveOnValueChanged_removes w1 this f N F)
    by (rewrite I1; simpl; unfold push_back; apply in_or_app; right; now left).
  rewrite I1. cbn [snd fst m_ValueChanged with_ValueChanged].
  rewrite (remove_first_push_back _ _ A).
  repeat split. intros q. unfold w1. simpl.
  replace (with_ValueChanged (m_ValueChanged (inspectables w this))
             (with_ValueChanged (push_back (m_ValueChanged (inspectables w this)) f)
                (inspectables w this)))
    with (inspectables w this) by (now destruct (inspectables w this)).
  apply upd_upd_back.
Qed.

Lemma Add_Remove_OnIdentityChanged w this f :
  is_null f = false -> functions w f <> None ->
  ~ In f (m_IdentityChanged (inspectables w this)) ->
  let w2 := snd (RemoveOnIdentityChanged this f (snd (AddOnIdentityChanged this f w))) in
  fst (RemoveOnIdentityChanged this f (snd (AddOnIdentityChanged this f w))) = Normal tt
  /\ (forall q, inspectables w2 q = inspectables w q)
  /\ transformations w2 = transformations w /\ functions w2 = functions w
  /\ calls w2 = calls w.
Proof.
  intros N F A. rewrite (AddOnIdentityChanged_appends w this f N F). cbn [snd].
  set (w1 := put this _ w).
  assert (I1 : inspectables w1 this
               = with_IdentityChanged
                   (push_back (m_IdentityChanged (inspectables w this)) f)
                   (inspectables w this)) by (unfold w1; simpl; apply upd_same).
  rewrite (RemoveOnIdentityChanged_removes w1 this f N F)
    by (rewrite I1; simpl; unfold push_back; apply in_or_app; right; now left).
  rewrite I1. cbn [snd fst m_IdentityChanged with_IdentityChanged].
  rewrite (remove_first_push_back _ _ A).
  repeat split. intros q. unfold w1. simpl.
  replace (with_IdentityChanged (m_IdentityChanged (inspectables w this))
             (with_IdentityChanged
                (push_back (m_IdentityChanged (inspectables w this)) f)
                (inspectables w this)))
    with (inspectables w this) by (now destruct (inspectables w this)).
  apply upd_upd_back.
Qed.

(** X12. A listener with a target, not yet in the list, added and then
    removed: both calls return, and every inspectable, the trace and the
    stores are as before.  So for the value-changed list and for the
    identity-changed list. *)
Theorem listener_added_then_removed w this f :
  is_null f = false -> functions w f <> None ->
  (~ In f (m_ValueChanged (inspectables w this)) ->
   let w2 := snd (RemoveOnValueChanged this f (snd (AddOnValueChanged this f w))) in
   (forall q, inspectables w2 q = inspectables w q) /\ calls w2 = calls w
   /\ functions w2 = functions w)
  /\
  (~ In f (m_IdentityChanged (inspectables w this)) ->
   let w2 := snd (RemoveOnIdentityChanged this f (snd (AddOnIdentityChanged this f w))) in
   (forall q, inspectables w2 q = inspectables w q) /\ calls w2 = calls w
   /\ functions w2 = functions w).
Proof.
  intros N F. split; intros A.
  - destruct (Add_Remove_OnValueChanged w this f N F A) as (_ & I & _ & Fn & C).
    now repeat split.
  - destruct (Add_Remove_OnIdentityChanged w this f N F A) as (_ & I & _ & Fn & C).
    now repeat split.
Qed.

(** ** The scoped listeners *)

Lemma ScopedValueChanged_new_world w member inspectable (func : TValueChangedFunc T) :
  ScopedValueChanged_new member inspectable func w
  = (Normal {| m_Inspectable := inspectable; m_OnValueChanged := member |},
     if negb (is_null inspectable) && has_target func
     then snd (AddOnValueChanged inspectable member (put_function member func w))
     else put_function member func w).
Proof.
  unfold ScopedValueChanged_new, bind, store_function, bound_pair.
  cbn [m_Inspectable m_OnValueChanged functions put_function]. rewrite upd_same.
  destruct (negb (is_null inspectable) && has_target func); [|reflexivity].
  unfold AddOnValueChanged, bind, nonnull_with_target, when.
  cbn [functions put_function].
  now destruct (negb (is_null member) && has_target (upd (functions w) member func member)).
Qed.

Lemma ScopedIdentityChanged_new_world w member inspectable (func : TValueChangedFunc T) :
  ScopedIdentityChanged_new member inspectable func w
  = (Normal {| m_Inspectable := inspectable; m_OnValueChanged := member |},
     if negb (is_null inspectable) && has_target func
     then snd (AddOnIdentityChanged inspectable member (put_function member func w))
     else put_function member func w).
Proof.
  unfold ScopedIdentityChanged_new, bind, store_function, bound_pair.
  cbn [m_Inspectable m_OnValueChanged functions put_function]. rewrite upd_same.
  destruct (negb (is_null inspectable) && has_target func); [|reflexivity].
  unfold AddOnIdentityChanged, bind, nonnull_with_target, when.
  cbn [functions put_function].
  now destruct (negb (is_null member) && has_target (upd (functions w) member func member)).
Qed.

Lemma scoped_value_listener_round_trip w member inspectable (func : TValueChangedFunc T) :
  let s := {| m_Inspectable := inspectable; m_OnValueChanged := member |} in
  let r := ScopedValueChanged_new member inspectable func w in
  let w2 := snd (ScopedValueChanged_delete s (snd r)) in
  member <> nullptr ->
  ~ In member (m_ValueChanged (inspectables w inspectable)) ->
  fst r = Normal s
  /\ (is_null inspectable = false ->
      fst (ContainsOnValueChanged inspectable member (snd r)) = Normal (has_target func))
  /\ (forall q, inspectables w2 q = inspectables w q) /\ calls w2 = calls w.
Proof.
  intros s r w2 Hm A. apply Nat.eqb_neq in Hm. fold (is_null member) in Hm.
  unfold w2, r. rewrite ScopedValueChanged_new_world. cbn [fst snd].
  split; [reflexivity|].
  set (w0 := put_function member func w).
  assert (F0 : functions w0 member = func) by (unfold w0; simpl; apply upd_same).
  unfold ScopedValueChanged_delete, bind, bound_pair, when, s.
  cbn [m_Inspectable m_OnValueChanged].
  destruct (negb (is_null inspectable) && has_target func) eqn:B.
  - apply andb_true_iff in B. destruct B as [Bn Bf].
    assert (Fn : functions w0 member <> None)
      by (rewrite F0; destruct func; [discriminate|discriminate Bf]).
    destruct (Add_Remove_OnValueChanged w0 inspectable member Hm Fn A)
      as (_ & I & _ & _ & C). cbv zeta in I, C.
    rewrite (AddOnValueChanged_appends w0 inspectable member Hm Fn) in *. cbn [snd] in *.
    set (w1 := put inspectable _ w0) in *.
    change (functions w1 member) with (functions w0 member). rewrite F0, Bn, Bf.
    cbn [andb]. split; [|split; [exact I|exact C]].
    intros _. unfold ContainsOnValueChanged, bind, nonnull_with_target, self, ret.
    change (functions w1 member) with (functions w0 member). rewrite F0, Hm, Bf.
    cbn [negb andb fst]. f_equal. unfold w1. simpl. rewrite upd_same. simpl.
    now rewrite std_find_push_back.
  - rewrite F0, B. cbn [snd]. split; [|now split].
    intros N. rewrite N in B. simpl in B. rewrite B.
    unfold ContainsOnValueChanged, bind, nonnull_with_target. rewrite F0.
    destruct func; [discriminate B|]. now rewrite andb_false_r.
Qed.

Lemma scoped_identity_listener_round_trip w member inspectable (func : TValueChangedFunc T) :
  let s := {| m_Inspectable := inspectable; m_OnValueChanged := member |} in
  let r := ScopedIdentityChanged_new member inspectable func w in
  let w2 := snd (ScopedIdentityChanged_delete s (snd r)) in
  member <> nullptr ->
  ~ In member (m_IdentityChanged (inspectables w inspectable)) ->
  fst r = Normal s
  /\ (is_null inspectable = false ->
      fst (ContainsOnIdentityChanged inspectable member (snd r)) = Normal (has_target func))
  /\ (forall q, inspectables w2 q = inspectables w q) /\ calls w2 = calls w.
Proof.
  intros s r w2 Hm A. apply Nat.eqb_neq in Hm. fold (is_null member) in Hm.
  unfold w2, r. rewrite ScopedIdentityChanged_new_world. cbn [fst snd].
  split; [reflexivity|].
  set (w0 := put_function member func w).
  assert (F0 : functions w0 member = func) by (unfold w0; simpl; apply upd_same).
  unfold ScopedIdentityChanged_delete, bind, bound_pair, when, s.
  cbn [m_Inspectable m_OnValueChanged].
  destruct (negb (is_null inspectable) && has_target func) eqn:B.
  - apply andb_true_iff in B. destruct B as [Bn Bf].
    assert (Fn : functions w0 member <> None)
      by (rewrite F0; destruct func; [discriminate|discriminate Bf]).
    destruct (Add_Remove_OnIdentityChanged w0 inspectable member Hm Fn A)
      as (_ & I & _ & _ & C). cbv zeta in I, C.
    rewrite (AddOnIdentityChanged_appends w0 inspectable member Hm Fn) in *. cbn [snd] in *.
    set (w1 := put inspectable _ w0) in *.
    change (functions w1 member) with (functions w0 member). rewrite F0, Bn, Bf.
    cbn [andb]. split; [|split; [exact I|exact C]].
    intros _. unfold ContainsOnIdentityChanged, bind, nonnull_with_target, self, ret.
    change (functions w1 member) with (functions w0 member). rewrite F0, Hm, Bf.
    cbn [negb andb fst]. f_equal. unfold w1. simpl. rewrite upd_same. simpl.
    now rewrite std_find_push_back.
  - rewrite F0, B. cbn [snd]. split; [|now split].
    intros N. rewrite N in B. simpl in B. rewrite B.
    unfold ContainsOnIdentityChanged, bind, nonnull_with_target. rewrite F0.
    destruct func; [discriminate B|]. now rewrite andb_false_r.
Qed.

(** X13. A scoped listener constructed and destroyed, its function member
    not being in the list before: every inspectable and the trace are as
    before the construction; in between, the member was registered with a
    non-null inspectable exactly when the function has a target.  So for
    the value-changed wrapper and for the identity-changed one. *)
Theorem scoped_listener_round_trip w member inspectable (func : TValueChangedFunc T) :
  let s := {| m_Inspectable := inspectable; m_OnValueChanged := member |} in
  member <> nullptr ->
  (~ In member (m_ValueChanged (inspectables w inspectable)) ->
   let r := ScopedValueChanged_new member inspectable func w in
   let w2 := snd (ScopedValueChanged_delete s (snd r)) in
   fst r = Normal s
   /\ (is_null inspectable = false ->
       fst (ContainsOnValueChanged inspectable member (snd r)) = Normal (has_target func))
   /\ (forall q, inspectables w2 q = inspectables w q) /\ calls w2 = calls w)
  /\
  (~ In member (m_IdentityChanged (inspectables w inspectable)) ->
   let r := ScopedIdentityChanged_new member inspectable func w in
   let w2 := snd (ScopedIdentityChanged_delete s (snd r)) in
   fst r = Normal s
   /\ (is_null inspectable = false ->
       fst (ContainsOnIdentityChanged inspectable member (snd r))
       = Normal (has_target func))
   /\ (forall q, inspectables w2 q = inspectables w q) /\ calls w2 = calls w).
Proof.
  intros s Hm. split; intros A.
  - now apply scoped_value_listener_round_trip.
  - now apply scoped_identity_listener_round_trip.
Qed.

(** ** The scoped transformation *)

(** A walk reads the transformations of its list and no other. *)
Lemma apply_transformations_agree w w' (l : list ptr) v :
  (forall q, In q l -> transformations w' q = transformations w q) ->
  apply_transformations w' l v = apply_transformations w l v.
Proof.
  revert v. induction l as [|t r IH]; intros v H; simpl; [reflexivity|].
  rewrite (H t (or_introl eq_refl)).
  assert (Hr : forall q, In q r -> transformations w' q = transformations w q)
    by (intros q Hq; apply H; now right).
  destruct (IsEnabled (transformations w t) && _); [|now apply IH].
  destruct (call_operator (transformations w t) v); [now apply IH|reflexivity].
Qed.

Lemma strictly_descending_agree w w' (l : list ptr) :
  (forall q, In q l -> transformations w' q = transformations w q) ->
  strictly_descending w l -> strictly_descending w' l.
Proof.
  unfold strictly_descending. intros H S. induction S as [|a r Sr IH Fa].
  - constructor.
  - constructor.
    + apply IH. intros q Hq. apply H. now right.
    + apply Forall_forall. intros b Hb.
      rewrite (H a (or_introl eq_refl)), (H b (or_intror Hb)).
      exact (proj1 (Forall_forall _ _) Fa b Hb).
Qed.

Lemma put_transformation_elsewhere w p (t : InspectableTransformation T) (l : list ptr) :
  ~ In p l ->
  forall q, In q l -> transformations (put_transformation p t w) q = transformations w q.
Proof.
  intros A q Hq. simpl. apply upd_other. intros ->. contradiction.
Qed.

(** The constructor with a function adds as [AddTransformation] does. *)
Lemma scoped_new_world w member inspectable (func : TTransformFunc T) (priority : Z)
    (enabled andUpdate updateOnDestroy : bool) :
  is_null inspectable = false -> is_null member = false ->
  snd (ScopedTransformation.new T_ne member inspectable func priority enabled
         andUpdate updateOnDestroy w)
  = snd (AddTransformation T_ne inspectable member andUpdate
           (put_transformation member
              {| m_Priority := priority; m_Enabled := enabled; m_Function := func |} w)).
Proof.
  intros N M. unfold ScopedTransformation.new, bind, ScopedTransformation.on_transformation.
  cbn [ScopedTransformation.m_Inspectable ScopedTransformation.m_Transformation].
  rewrite N. cbn [negb]. unfold AddTransformation. rewrite M.
  unfold bind, assign, SortTransformations, when, ret. simpl.
  destruct andUpdate; [|reflexivity].
  match goal with
  | |- context [ForceUpdate T_ne inspectable ?x] =>
      now destruct (ForceUpdate T_ne inspectable x) as [[[]|e] w']
  end.
Qed.

(** The destructor of a wrapper that updates on destroy removes a registered
    member as [RemoveTransformation] with a recompute does. *)
Lemma scoped_delete_world w member inspectable :
  is_null inspectable = false -> member <> nullptr ->
  In member (m_Transformations (inspectables w inspectable)) ->
  snd (ScopedTransformation.delete T_ne
         {| ScopedTransformation.m_Inspectable := inspectable;
            ScopedTransformation.m_Transformation := member;
            ScopedTransformation.m_UpdateOnDestroy := true |} w)
  = snd (RemoveTransformation T_ne inspectable member true w).
Proof.
  intros N M A. unfold ScopedTransformation.delete, bind.
  cbn [ScopedTransformation.m_Inspectable ScopedTransformation.m_Transformation
       ScopedTransformation.m_UpdateOnDestroy].
  rewrite N. cbn [negb].
  rewrite (RemoveTransformation_present T T_ne w inspectable member false M A).
  rewrite (RemoveTransformation_present T T_ne w inspectable member true M A).
  reflexivity.
Qed.

(** X14. Example C of the design: a scoped transformation constructed on an
    inspectable whose slot list is in strictly descending priority, and
    destroyed with update-on-destroy: the slot list is the one of before the
    construction, and the cached value is the value a recompute gave before
    it, whatever the function, the priority and [std::sort] are. *)
Theorem scoped_transformation_leaves_no_trace w member inspectable
    (func : TTransformFunc T) (priority : Z) (enabled andUpdate : bool) v :
  let l := m_Transformations (inspectables w inspectable) in
  let s := {| ScopedTransformation.m_Inspectable := inspectable;
              ScopedTransformation.m_Transformation := member;
              ScopedTransformation.m_UpdateOnDestroy := true |} in
  let w1 := snd (ScopedTransformation.new T_ne member inspectable func priority enabled
                   andUpdate true w) in
  let w2 := snd (ScopedTransformation.delete T_ne s w1) in
  inspectable <> nullptr -> member <> nullptr ->
  ~ In member l -> strictly_descending w l ->
  transformed w inspectable = Some v ->
  m_Transformations (inspectables w2 inspectable) = l
  /\ m_LastValue (inspectables w2 inspectable) = v.
Proof.
  intros l s w1 w2 Hi Hm A S Hv.
  assert (N : is_null inspectable = false) by (now apply Nat.eqb_neq).
  assert (M : is_null member = false) by (now apply Nat.eqb_neq).
  set (t := {| m_Priority := priority; m_Enabled := enabled; m_Function := func |}).
  set (w0 := put_transformation member t w).
  assert (E1 : w1 = snd (AddTransformation T_ne inspectable member andUpdate w0))
    by (unfold w1; now rewrite scoped_new_world).
  assert (In1 : In member (m_Transformations (inspectables w1 inspectable))).
  { rewrite E1, (AddTransformation_adds T T_ne w0 inspectable member andUpdate Hm).
    destruct (add_sort_update_frame T T_ne w0 inspectable member andUpdate) as [L0 _].
    cbv zeta in L0. rewrite L0. apply (Permutation_in _ (std_sort_perm _ _)).
    unfold push_back. apply in_or_app. right. now left. }
  assert (E2 : w2 = snd (RemoveTransformation T_ne inspectable member true w1))
    by (unfold w2, s; now rewrite scoped_delete_world).
  pose proof (put_transformation_elsewhere w member t l A) as Ag. fold w0 in Ag.
  assert (S0 : strictly_descending w0 l) by (now apply (strictly_descending_agree w)).
  assert (Hv0 : transformed w0 inspectable = Some v).
  { apply transformed_walk. apply transformed_walk in Hv. rewrite <- Hv.
    unfold walk. now apply apply_transformations_agree. }
  destruct (add_then_remove_restores w0 inspectable member andUpdate v Hm A S0 Hv0)
    as (L2 & V2 & _).
  rewrite <- E1, <- E2 in L2, V2. now split.
Qed.

(** X15. The constructor without a function adds nothing to the
    inspectable, and [Set] does not add the transformation either: whatever
    [Set] then gives it, with a recompute, the slot list is as before and the
    cached value is the value a recompute gave before the construction. *)
Theorem scoped_transformation_without_function_is_not_added w member inspectable
    (updateOnDestroy : bool) (func : TTransformFunc T) (priority : Z) (enabled : bool) v :
  let l := m_Transformations (inspectables w inspectable) in
  let s := {| ScopedTransformation.m_Inspectable := inspectable;
              ScopedTransformation.m_Transformation := member;
              ScopedTransformation.m_UpdateOnDestroy := updateOnDestroy |} in
  let r := ScopedTransformation.new_unset member inspectable updateOnDestroy w in
  let w2 := snd (ScopedTransformation.Set_ T_ne s func priority enabled true (snd r)) in
  inspectable <> nullptr -> ~ In member l ->
  transformed w inspectable = Some v ->
  fst r = Normal s
  /\ m_Transformations (inspectables (snd r) inspectable) = l
  /\ m_Transformations (inspectables w2 inspectable) = l
  /\ m_LastValue (inspectables w2 inspectable) = v.
Proof.
  intros l s r w2 Hi A Hv.
  assert (N : is_null inspectable = false) by (now apply Nat.eqb_neq).
  split; [reflexivity|]. split; [reflexivity|].
  unfold w2, r, ScopedTransformation.Set_, ScopedTransformation.new_unset, bind,
    ScopedTransformation.on_transformation, when, ret, s.
  cbn [ScopedTransformation.m_Inspectable ScopedTransformation.m_Transformation snd].
  rewrite N. cbn [negb andb].
  set (ws := put_transformation member _ (put_transformation member _ w)).
  assert (Ag : forall q, In q l -> transformations ws q = transformations w q).
  { intros q Hq. unfold ws. simpl. rewrite !upd_other; [reflexivity| |];
      intros ->; contradiction. }
  assert (Ws : walk ws inspectable = Normal v).
  { apply transformed_walk in Hv. rewrite <- Hv. unfold walk.
    now apply apply_transformations_agree. }
  pose proof (ForceUpdate_frame T T_ne ws inspectable) as Fr. cbv zeta in Fr.
  destruct Fr as (_ & _ & _ & I2).
  split; [now rewrite I2|]. now apply ForceUpdate_caches.
Qed.

Lemma chain_agree w w' (ps : list ptr) v :
  (forall q, In q ps -> transformations w' q = transformations w q) ->
  chain w' ps v = chain w ps v.
Proof.
  revert v. induction ps as [|p r IH]; intros v H; simpl; [reflexivity|].
  rewrite (H p (or_introl eq_refl)).
  destruct (m_Function (transformations w p)) as [target|]; [|reflexivity].
  destruct (target v); [|reflexivity]. apply IH. intros q Hq. apply H. now right.
Qed.

(** What a recompute gives once the transformation at [p] is disabled: the
    other transformations applied as before. *)
Lemma transformed_disabled w this p :
  transformed (put_transformation p (Disable (transformations w p)) w) this
  = chain w (filter (fun q => applied w q && negb (Nat.eqb q p))
               (m_Transformations (inspectables w this)))
      (m_Identity (inspectables w this)).
Proof.
  unfold transformed. cbn [inspectables put_transformation].
  set (wd := put_transformation p (Disable (transformations w p)) w).
  assert (F : forall q, applied wd q = applied w q && negb (Nat.eqb q p)).
  { intros q. unfold applied, wd. simpl. unfold upd.
    destruct (Nat.eqb q p); simpl; [now rewrite andb_false_r|now rewrite andb_true_r]. }
  rewrite (filter_ext _ _ F). apply chain_agree.
  intros q Hq. apply filter_In in Hq. destruct Hq as [_ Hq].
  apply andb_true_iff in Hq. destruct Hq as [_ Hq]. apply negb_true_iff in Hq.
  unfold wd. simpl. unfold upd. now rewrite Hq.
Qed.

(** X16. [Disable(true)] of a scoped transformation recomputes without its
    transformation, the others applied as before; [Enable(true)] after it
    puts the transformation back as it was and recomputes the value the
    inspectable had with it. *)
Theorem scoped_transformation_Disable_Enable w member inspectable (updateOnDestroy : bool)
    v v' :
  let i := inspectables w inspectable in
  let s := {| ScopedTransformation.m_Inspectable := inspectable;
              ScopedTransformation.m_Transformation := member;
              ScopedTransformation.m_UpdateOnDestroy := updateOnDestroy |} in
  let w1 := snd (ScopedTransformation.Disable T_ne s true w) in
  let w2 := snd (ScopedTransformation.Enable T_ne s true w1) in
  inspectable <> nullptr ->
  m_Enabled (transformations w member) = true ->
  chain w (filter (fun q => applied w q && negb (Nat.eqb q member)) (m_Transformations i))
    (m_Identity i) = Some v' ->
  transformed w inspectable = Some v ->
  m_LastValue (inspectables w1 inspectable) = v'
  /\ IsEnabled (transformations w1 member) = false
  /\ m_LastValue (inspectables w2 inspectable) = v
  /\ transformations w2 member = transformations w member.
Proof.
  intros i s w1 w2 Hi En Hd Hv.
  assert (N : is_null inspectable = false) by (now apply Nat.eqb_neq).
  set (wd := put_transformation member (Disable (transformations w member)) w).
  assert (E1 : w1 = snd (ForceUpdate T_ne inspectable wd)).
  { unfold w1, ScopedTransformation.Disable, bind, ScopedTransformation.on_transformation,
      when, s. cbn [ScopedTransformation.m_Inspectable ScopedTransformation.m_Transformation].
    now rewrite N. }
  pose proof (ForceUpdate_frame T T_ne wd inspectable) as Fr. cbv zeta in Fr.
  rewrite <- E1 in Fr. destruct Fr as (T1 & _ & _ & I1).
  assert (D1 : transformations w1 member = Disable (transformations w member))
    by (rewrite T1; unfold wd; simpl; apply upd_same).
  set (we := put_transformation member (Enable (transformations w1 member)) w1).
  assert (E2 : w2 = snd (ForceUpdate T_ne inspectable we)).
  { unfold w2, ScopedTransformation.Enable, bind, ScopedTransformation.on_transformation,
      when, s. cbn [ScopedTransformation.m_Inspectable ScopedTransformation.m_Transformation].
    now rewrite N. }
  assert (Back : Enable (Disable (transformations w member)) = transformations w member).
  { destruct (transformations w member) as [pr en fn]. simpl in En. subst en. reflexivity. }
  assert (Ag : forall q, transformations we q = transformations w q).
  { intros q. unfold we. simpl. unfold upd. destruct (Nat.eqb q member) eqn:Q.
    - apply Nat.eqb_eq in Q. subst q. now rewrite D1, Back.
    - rewrite T1. unfold wd. simpl. unfold upd. now rewrite Q. }
  split; [|split; [|split]].
  - rewrite E1. apply ForceUpdate_caches, transformed_walk.
    unfold wd. now rewrite transformed_disabled.
  - now rewrite D1.
  - rewrite E2. apply ForceUpdate_caches.
    apply transformed_walk in Hv. rewrite <- Hv. unfold walk.
    change (inspectables we inspectable) with (inspectables w1 inspectable).
    rewrite I1. simpl. apply apply_transformations_agree. intros q _. apply Ag.
  - pose proof (ForceUpdate_frame T T_ne we inspectable) as Fr. cbv zeta in Fr.
    rewrite <- E2 in Fr. destruct Fr as (T2 & _). rewrite T2. apply Ag.
Qed.

End More.

(** ** The further properties at the README's example *)

Lemma ForceUpdate_raising_transformation_witness :
  ForceUpdate int_ne 1 failing_world = (Raised (host_error 7), failing_world).
Proof.
  apply (ForceUpdate_raising_transformation Z int_ne failing_world 1 12 [11] [] 20%Z 20%Z
           (host_error 7) (fun v => Throws (host_error 7) v)); reflexivity.
Defined.

Lemma SetIdentity_raising_recompute_witness :
  SetIdentity int_ne 1 11%Z true failing_world
  = (Raised (host_error 7),
     put 1 (with_Identity 11%Z (inspectables failing_world 1)) failing_world).
Proof.
  apply (SetIdentity_raising_recompute Z int_ne failing_world 1 11%Z (host_error 7));
    reflexivity.
Defined.

Lemma ForceUpdate_raising_listener_witness :
  ForceUpdate int_ne 1 complaining_world
  = (Raised (host_error 3),
     record_calls (invocations ([21] ++ [22]) 1 10%Z 20%Z)
       (put 1 (with_LastValue 20%Z (inspectables complaining_world 1)) complaining_world)).
Proof.
  apply (ForceUpdate_raising_listener Z int_ne complaining_world 1 20%Z [21] [] 22
           (fun _ _ _ => Some (host_error 3)) (host_error 3)); reflexivity.
Defined.

Lemma slot_list_never_gains_nullptr_witness :
  ~ In nullptr (m_Transformations
       (inspectables (snd (@AddTransformation Z int_ne stable_sorter 1 0 true pill_world)) 1))
  /\ ~ In nullptr (m_Transformations
       (inspectables
          (snd (@AddTransformationUnique Z int_ne stable_sorter 1 0 true pill_world)) 1))
  /\ ~ In nullptr (m_Transformations
       (inspectables (snd (RemoveTransformation int_ne 1 0 true pill_world)) 1)).
Proof.
  apply (@slot_list_never_gains_nullptr Z int_ne stable_sorter pill_world 1 0 true).
  simpl. intros [F|[]]. discriminate F.
Defined.

Lemma AddTransformation_registers_witness :
  Permutation (12 :: m_Transformations (inspectables pill_world 1))
    (m_Transformations
       (inspectables (snd (@AddTransformation Z int_ne stable_sorter 1 12 true pill_world)) 1))
  /\ ContainsTransformation 1 12
       (snd (@AddTransformation Z int_ne stable_sorter 1 12 true pill_world))
     = (Normal true, snd (@AddTransformation Z int_ne stable_sorter 1 12 true pill_world)).
Proof.
  destruct (@AddTransformation_registers Z int_ne stable_sorter pill_world 1 12 true)
    as (P & _ & _ & C); [discriminate|]. now split.
Defined.

Lemma AddTransformation_then_RemoveTransformation_witness :
  m_Transformations
    (inspectables
       (snd (RemoveTransformation int_ne 1 12 true
               (snd (@AddTransformation Z int_ne stable_sorter 1 12 true pill_world)))) 1)
  = [11]
  /\ m_LastValue
       (inspectables
          (snd (RemoveTransformation int_ne 1 12 true
                  (snd (@AddTransformation Z int_ne stable_sorter 1 12 true pill_world)))) 1)
     = 20%Z.
Proof.
  destruct (@AddTransformation_then_RemoveTransformation Z int_ne stable_sorter
              pill_world 1 12 true 20%Z) as (L & V & _).
  - discriminate.
  - simpl. intros [F|[]]. discriminate F.
  - repeat constructor.
  - reflexivity.
  - now split.
Defined.

Lemma listeners_reject_null_and_empty_witness :
  AddOnValueChanged 1 0 speed_world = (Normal 1, speed_world)
  /\ AddOnValueChangedUnique 1 0 speed_world = (Normal 1, speed_world)
  /\ AddOnIdentityChanged 1 0 speed_world = (Normal 1, speed_world)
  /\ AddOnIdentityChangedUnique 1 0 speed_world = (Normal 1, speed_world).
Proof.
  apply (listeners_reject_null_and_empty Z speed_world 1 0). left. reflexivity.
Defined.

Lemma listener_without_target_stays_witness :
  RemoveOnValueChanged 1 21 emptied_world = (Normal tt, emptied_world)
  /\ ContainsOnValueChanged 1 21 emptied_world = (Normal false, emptied_world)
  /\ ForceUpdate int_ne 1 emptied_world
     = (Raised bad_function_call,
        record_calls (invocations [] 1 10%Z 20%Z)
          (put 1 (with_LastValue 20%Z (inspectables emptied_world 1)) emptied_world)).
Proof.
  destruct (listener_without_target_stays Z int_ne emptied_world 1 21 [] [] 20%Z)
    as (R & C & F); [reflexivity|reflexivity|].
  split; [exact R|]. split; [exact C|]. apply F; reflexivity.
Defined.

Lemma listener_added_then_removed_witness :
  calls (snd (RemoveOnValueChanged 1 22
                (snd (AddOnValueChanged 1 22 second_watcher_world))))
  = calls second_watcher_world
  /\ calls (snd (RemoveOnIdentityChanged 1 22
                   (snd (AddOnIdentityChanged 1 22 second_watcher_world))))
     = calls second_watcher_world.
Proof.
  destruct (listener_added_then_removed Z second_watcher_world 1 22) as (V & I);
    [reflexivity|discriminate|].
  split.
  - apply V. simpl. intros [F|[]]. discriminate F.
  - apply I. simpl. intros [].
Defined.

Lemma scoped_listener_round_trip_witness :
  fst (ScopedValueChanged_new 31 1 watcher speed_world)
  = Normal {| m_Inspectable := 1; m_OnValueChanged := 31 |}
  /\ fst (ContainsOnValueChanged 1 31 (snd (ScopedValueChanged_new 31 1 watcher speed_world)))
     = Normal true.
Proof.
  destruct (scoped_listener_round_trip Z speed_world 31 1 watcher) as (V & _);
    [discriminate|].
  destruct V as (R & C & _); [simpl; intros [F|[]]; discriminate F|].
  split; [exact R|]. apply C. reflexivity.
Defined.

Lemma scoped_transformation_leaves_no_trace_witness :
  m_Transformations
    (inspectables
       (snd (@ScopedTransformation.delete Z int_ne
               {| ScopedTransformation.m_Inspectable := 1;
                  ScopedTransformation.m_Transformation := 12;
                  ScopedTransformation.m_UpdateOnDestroy := true |}
               (snd (@ScopedTransformation.new Z int_ne stable_sorter 12 1 plus2 1
                       true true true pill_world)))) 1) = [11]
  /\ m_LastValue
       (inspectables
          (snd (@ScopedTransformation.delete Z int_ne
                  {| ScopedTransformation.m_Inspectable := 1;
                     ScopedTransformation.m_Transformation := 12;
                     ScopedTransformation.m_UpdateOnDestroy := true |}
                  (snd (@ScopedTransformation.new Z int_ne stable_sorter 12 1 plus2 1
                          true true true pill_world)))) 1) = 20%Z.
Proof.
  apply (@scoped_transformation_leaves_no_trace Z int_ne stable_sorter pill_world 12 1
           plus2 1%Z true true 20%Z).
  - discriminate.
  - discriminate.
  - simpl. intros [F|[]]. discriminate F.
  - repeat constructor.
  - reflexivity.
Defined.

Lemma scoped_transformation_without_function_is_not_added_witness :
  m_LastValue
    (inspectables
       (snd (@ScopedTransformation.Set_ Z int_ne
               {| ScopedTransformation.m_Inspectable := 1;
                  ScopedTransformation.m_Transformation := 12;
                  ScopedTransformation.m_UpdateOnDestroy := false |}
               plus2 1%Z true true
               (snd (@ScopedTransformation.new_unset Z 12 1 false pill_world)))) 1) = 20%Z.
Proof.
  destruct (scoped_transformation_without_function_is_not_added Z int_ne pill_world 12 1
              false plus2 1%Z true 20%Z) as (_ & _ & _ & V).
  - discriminate.
  - simpl. intros [F|[]]. discriminate F.
  - reflexivity.
  - exact V.
Defined.

Lemma scoped_transformation_Disable_Enable_witness :
  m_LastValue
    (inspectables
       (snd (@ScopedTransformation.Disable Z int_ne
               {| ScopedTransformation.m_Inspectable := 1;
                  ScopedTransformation.m_Transformation := 11;
                  ScopedTransformation.m_UpdateOnDestroy := false |} true pill_world)) 1)
  = 10%Z
  /\ m_LastValue
       (inspectables
          (snd (@ScopedTransformation.Enable Z int_ne
                  {| ScopedTransformation.m_Inspectable := 1;
                     ScopedTransformation.m_Transformation := 11;
                     ScopedTransformation.m_UpdateOnDestroy := false |} true
                  (snd (@ScopedTransformation.Disable Z int_ne
                          {| ScopedTransformation.m_Inspectable := 1;
                             ScopedTransformation.m_Transformation := 11;
                             ScopedTransformation.m_UpdateOnDestroy := false |} true
                          pill_world)))) 1) = 20%Z.
Proof.
  destruct (scoped_transformation_Disable_Enable Z int_ne pill_world 11 1 false 20%Z 10%Z)
    as (D & _ & E & _); try reflexivity.
  - discriminate.
  - now split.
Defined.


Lemma AddOnChangedUnique_twice_witness :
  m_ValueChanged (inspectables (snd (AddOnValueChangedUnique 1 22 second_watcher_world)) 1)
  = m_ValueChanged (inspectables second_watcher_world 1) ++ [22]
  /\ m_IdentityChanged
       (inspectables (snd (AddOnIdentityChangedUnique 1 22 second_watcher_world)) 1)
     = m_IdentityChanged (inspectables second_watcher_world 1) ++ [22].
Proof.
  destruct (AddOnChangedUnique_twice Z second_watcher_world 1 22) as (_ & _ & A).
  destruct A as (V & I); [reflexivity|discriminate|].
  split.
  - apply V. simpl. intros [F|[]]. discriminate F.
  - apply I. simpl. intros [].
Defined.
